(** * backup-log.c: the record codec and the two log readers

    A shallow embedding of [backup-log.c]: the line encoder [bkl_append],
    the line decoder [bkl_parse_entry], the appender [bkl_write], the forward
    reader [bkl_parse_file] and the block-wise reverse reader
    [bkl_parse_file_reverse] with its helper [find_beginning_of_line].

    Conventions.
    - A [char] is an [ascii]; a byte sequence is a [list ascii].
    - A [struct strbuf] is modelled by its content (the [len] bytes of
      [buf]); the NUL that strbuf keeps at [buf[len]] is implicit: reading
      index [len] through [byte_at] yields NUL.
    - A pointer into a buffer is the index of the byte it points to.
    - File offsets, lengths and counts are [nat]; C [int] results are [Z].
    - Loops whose termination argument is not structural carry a fuel
      argument and return [None] when it runs out; the entry points supply
      enough fuel and the theorems show that a result is produced. *)

From Stdlib Require Import String Ascii List ZArith Lia Bool Arith.
Import ListNotations.

Local Open Scope nat_scope.

(** ** Characters and buffers *)

Definition NUL : ascii := "000"%char.
Definition TAB : ascii := "009"%char.
Definition LF : ascii := "010"%char.
Definition SP : ascii := " "%char.

Definition is_lf (c : ascii) : bool := Ascii.eqb c LF.

(** [buf[i]], with the implicit terminating NUL behind the content. *)
Definition byte_at (buf : list ascii) (i : nat) : ascii := nth i buf NUL.

(** The bytes [buf[from .. to)]. *)
Definition slice (buf : list ascii) (from to : nat) : list ascii :=
  firstn (to - from) (skipn from buf).

Definition strbuf := list ascii.

(** [strbuf_splice(&sb, 0, 0, data, n)]: insert [data] in front of [sb]. *)
Definition strbuf_splice_front (sb : strbuf) (data : list ascii) : strbuf :=
  data ++ sb.

(** [strbuf_reset(&sb)]. *)
Definition strbuf_reset (sb : strbuf) : strbuf := [].

(** ** Files *)

Inductive errno_t := ENOENT | ENOTDIR | EACCES | EIO.

(** What [fopen(path, "r")] gives: NULL with [errno] set, or a stream over
    the content of the file. *)
Inductive fopen_result :=
| Fopen_null (e : errno_t)
| Fopen_stream (content : list ascii).

Definition filesystem := string -> fopen_result.

Definition missing_file_errno (e : errno_t) : bool :=
  match e with ENOENT | ENOTDIR => true | _ => false end.

(** Result of a reader: the value it returns, or the abort in
    [BUG("reverse reflog parser had leftover data")]. *)
Inductive outcome :=
| Returned (ret : Z)
| BUG_leftover.

(** ** find_beginning_of_line

    [while (bob < scan && *(--scan) != '\n') ;  return scan;]
    The recursion is on [scan]. *)
Fixpoint find_beginning_of_line (buf : list ascii) (bob scan : nat) : nat :=
  match scan with
  | 0 => scan
  | S scan' =>
      if bob <? scan then
        if is_lf (byte_at buf scan') then scan'
        else find_beginning_of_line buf bob scan'
      else scan
  end.

(** Modelled from the spec: [strbuf_getwholeline(&sb, fp, '\n')] of strbuf.c,
    which is not part of this file.  It reads one LF-delimited line, the LF
    included; at end of file it fails (EOF) when no byte was read and
    otherwise delivers the unterminated rest. *)
Fixpoint read_line (fp : list ascii) : strbuf * list ascii :=
  match fp with
  | [] => ([], [])
  | c :: fp' =>
      if is_lf c then ([c], fp')
      else let (l, rest) := read_line fp' in (c :: l, rest)
  end.

Definition strbuf_getwholeline (fp : list ascii)
  : option (strbuf * list ascii) :=
  match fp with
  | [] => None
  | _ :: _ => Some (read_line fp)
  end.

Section Readers.

(** The block size of the reverse reader, [sizeof(buf)] with
    [char buf[BUFSIZ]]; the constant comes from <stdio.h>. *)
Variable BUFSIZ : nat.

(** The callback [parse], a function pointer taking the line (a strbuf)
    and the caller's [data]; it returns its verdict (non-zero stops the
    iteration) and the updated data. *)
Variable D : Type.
Variable parse : strbuf -> D -> Z * D.

(** *** bkl_parse_file *)

(** [while (!ret && !strbuf_getwholeline(&sb, logfp, '\n'))
       ret = parse(&sb, data);] *)
Fixpoint forward_loop (fuel : nat) (fp : list ascii) (ret : Z) (d : D)
  : option (Z * D) :=
  if (ret =? 0)%Z then
    match strbuf_getwholeline fp with
    | None => Some (ret, d)
    | Some (sb, fp') =>
        match fuel with
        | 0 => None
        | S fuel' =>
            let (ret', d') := parse sb d in
            forward_loop fuel' fp' ret' d'
        end
    end
  else Some (ret, d).

Definition bkl_parse_file (fs : filesystem) (path : string) (d : D)
  : option (Z * D) :=
  match fs path with
  | Fopen_null e =>
      if missing_file_errno e then Some (0%Z, d) else Some ((-1)%Z, d)
  | Fopen_stream content =>
      forward_loop (S (length content)) content 0%Z d
  end.

(** *** bkl_parse_file_reverse *)

(** The inner loop [while (buf < scanp) { ... }] over one block.
    [pos] is the file offset of the block (already decremented by [cnt]).
    The result is [ret], the carried strbuf and the callback data. *)
Fixpoint scan_block (fuel : nat) (buf : list ascii) (pos : nat)
    (sb : strbuf) (scanp endp : nat) (d : D) : option (Z * strbuf * D) :=
  if 0 <? scanp then
    match fuel with
    | 0 => None
    | S fuel' =>
        let bp := find_beginning_of_line buf 0 scanp in
        if is_lf (byte_at buf bp) then
          let sb1 := strbuf_splice_front sb (slice buf (bp + 1) endp) in
          let scanp1 := bp in
          let endp1 := bp + 1 in
          let (ret, d1) := parse sb1 d in
          let sb2 := strbuf_reset sb1 in
          if negb (ret =? 0)%Z then Some (ret, sb2, d1)
          else if bp =? 0 then
            Some (ret, strbuf_splice_front sb2 (slice buf 0 endp1), d1)
          else scan_block fuel' buf pos sb2 scanp1 endp1 d1
        else if pos =? 0 then
          let sb1 := strbuf_splice_front sb (slice buf 0 endp) in
          let (ret, d1) := parse sb1 d in
          Some (ret, strbuf_reset sb1, d1)
        else if bp =? 0 then
          Some (0%Z, strbuf_splice_front sb (slice buf 0 endp), d)
        else scan_block fuel' buf pos sb scanp endp d
    end
  else Some (0%Z, sb, d).

(** The outer loop [while (!ret && 0 < pos) { ... }].  [fseek], [ftell]
    and [fread] on the opened stream are taken to succeed. *)
Fixpoint reverse_loop (fuel : nat) (file : list ascii) (pos : nat)
    (at_tail : bool) (ret : Z) (sb : strbuf) (d : D)
  : option (Z * strbuf * D) :=
  if (ret =? 0)%Z && (0 <? pos) then
    match fuel with
    | 0 => None
    | S fuel' =>
        let cnt := if BUFSIZ <? pos then BUFSIZ else pos in
        let buf := slice file (pos - cnt) pos in
        let pos' := pos - cnt in
        let endp := cnt in
        let scanp :=
          if at_tail && is_lf (byte_at buf (cnt - 1)) then cnt - 1 else cnt in
        match scan_block (S scanp) buf pos' sb scanp endp d with
        | None => None
        | Some (ret', sb', d') => reverse_loop fuel' file pos' false ret' sb' d'
        end
    end
  else Some (ret, sb, d).

(** [if (!ret && sb.len) BUG(...); ... return ret;] *)
Definition leftover_check (r : Z * strbuf * D) : outcome * D :=
  match r with
  | (ret, sb, d) =>
      if (ret =? 0)%Z && (0 <? length sb) then (BUG_leftover, d)
      else (Returned ret, d)
  end.

Definition reverse_scan (content : list ascii) (d : D) : option (outcome * D) :=
  option_map leftover_check
    (reverse_loop (S (length content)) content (length content) true 0%Z [] d).

Definition bkl_parse_file_reverse (fs : filesystem) (path : string) (d : D)
  : option (outcome * D) :=
  match fs path with
  | Fopen_null e =>
      if missing_file_errno e then Some (Returned 0%Z, d)
      else Some (Returned (-1)%Z, d)
  | Fopen_stream content => reverse_scan content d
  end.

(** *** What the readers are expected to deliver *)

(** Hand the lines to the callback one after the other until it stops. *)
Fixpoint feed (lines : list strbuf) (d : D) : Z * D :=
  match lines with
  | [] => (0%Z, d)
  | l :: ls =>
      let (ret, d') := parse l d in
      if (ret =? 0)%Z then feed ls d' else (ret, d')
  end.

(** The reverse scan seen from the end of the file, free of any block
    structure: [r] is the not yet visited prefix of the file, last byte
    first, and [cur] the part of the current line already collected. *)
Fixpoint backward_walk (r : list ascii) (cur : strbuf) (d : D) : outcome * D :=
  match r with
  | [] => let (ret, d') := parse cur d in (Returned ret, d')
  | c :: r' =>
      if is_lf c then
        let (ret, d') := parse cur d in
        if negb (ret =? 0)%Z then (Returned ret, d')
        else match r' with
             | [] => (BUG_leftover, d')
             | _ :: _ => backward_walk r' [c] d'
             end
      else backward_walk r' (c :: cur) d
  end.

Definition reverse_spec (content : list ascii) (d : D) : outcome * D :=
  match rev content with
  | [] => (Returned 0%Z, d)
  | c :: r' =>
      if is_lf c then
        match r' with
        | [] => (Returned 0%Z, d)
        | _ :: _ => backward_walk r' [c] d
        end
      else backward_walk (c :: r') [] d
  end.

(** Where the scan of a block leaves off: [r = (ret, sb, d)] is the state
    after the block at offset [pos], [rP] the file before it, reversed. *)
Definition resume (pos : nat) (rP : list ascii) (r : Z * strbuf * D)
  : outcome * D :=
  match r with
  | (ret, sb, d) =>
      if negb (ret =? 0)%Z then (Returned ret, d)
      else if pos =? 0 then leftover_check r
      else backward_walk rP sb d
  end.

End Readers.

Arguments forward_loop {D} parse fuel fp ret d.
Arguments bkl_parse_file {D} parse fs path d.
Arguments scan_block {D} parse fuel buf pos sb scanp endp d.
Arguments reverse_loop BUFSIZ {D} parse fuel file pos at_tail ret sb d.
Arguments leftover_check {D} r.
Arguments reverse_scan BUFSIZ {D} parse content d.
Arguments bkl_parse_file_reverse BUFSIZ {D} parse fs path d.
Arguments feed {D} parse lines d.
Arguments backward_walk {D} parse r cur d.
Arguments reverse_spec {D} parse content d.
Arguments resume {D} parse pos rP r.


(** The lines of a file as the forward reader cuts them: after every LF,
    and the unterminated rest, if any, as a last line. *)
Fixpoint lines_of (content : list ascii) : list strbuf :=
  match content with
  | [] => []
  | c :: rest =>
      if is_lf c then [c] :: lines_of rest
      else match lines_of rest with
           | [] => [[c]]
           | l :: ls => (c :: l) :: ls
           end
  end.

Definition bytes (s : string) : list ascii := list_ascii_of_string s.

(** A callback that records every line it is given and never stops. *)
Definition record_line (line : strbuf) (seen : list strbuf) : Z * list strbuf :=
  (0%Z, seen ++ [line]).

Definition no_lf (l : list ascii) : Prop := Forall (fun c => is_lf c = false) l.

(** ** Object identifiers

    Modelled from the spec: the identifier type and its hex text form
    ([struct object_id], [oideq], [oid_to_hex], [parse_oid_hex]) belong to
    the hash library, which is not part of this file.  An identifier is a
    fixed-width binary value, here the 20 raw bytes of a SHA-1, with a
    canonical hex encoding of fixed length, 40 lower-case digits; parsing
    accepts upper-case digits as well. *)

Definition GIT_SHA1_RAWSZ : nat := 20.
Definition GIT_SHA1_HEXSZ : nat := 40.

Definition object_id := list ascii.

Definition valid_oid (o : object_id) : Prop := length o = GIT_SHA1_RAWSZ.

Fixpoint bytes_eqb (a b : list ascii) : bool :=
  match a, b with
  | [], [] => true
  | x :: a', y :: b' => Ascii.eqb x y && bytes_eqb a' b'
  | _, _ => false
  end.

Definition oideq (a b : object_id) : bool := bytes_eqb a b.

Definition hex_digit (n : N) : ascii :=
  ascii_of_N (if (n <? 10)%N then 48 + n else 87 + n)%N.

Definition hexval (c : ascii) : option N :=
  let n := N_of_ascii c in
  if ((48 <=? n) && (n <=? 57))%N then Some (n - 48)%N
  else if ((97 <=? n) && (n <=? 102))%N then Some (n - 87)%N
  else if ((65 <=? n) && (n <=? 70))%N then Some (n - 55)%N
  else None.

Definition byte_to_hex (b : ascii) : list ascii :=
  [hex_digit (N_of_ascii b / 16); hex_digit (N_of_ascii b mod 16)].

Definition oid_to_hex (o : object_id) : list ascii := flat_map byte_to_hex o.

(** [n] bytes from [2n] hex digits at the front of [l]. *)
Fixpoint hex_to_bytes (l : list ascii) (n : nat) {struct n}
  : option (list ascii) :=
  match n with
  | 0 => Some []
  | S n' =>
      match l with
      | h :: lo :: l' =>
          match hexval h, hexval lo with
          | Some vh, Some vl =>
              option_map (cons (ascii_of_N (16 * vh + vl)))
                         (hex_to_bytes l' n')
          | _, _ => None
          end
      | _ => None
      end
  end.

(** [parse_oid_hex(p, &oid, &end)]: the identifier and the pointer behind
    its hex form, or failure. *)
Definition parse_oid_hex (buf : list ascii) (p : nat)
  : option (object_id * nat) :=
  option_map (fun o => (o, p + GIT_SHA1_HEXSZ))
             (hex_to_bytes (skipn p buf) GIT_SHA1_RAWSZ).

(** ** libc on NUL-terminated strings *)

Definition is_nul (c : ascii) : bool := Ascii.eqb c NUL.

Definition no_nul (l : list ascii) : Prop :=
  Forall (fun c => is_nul c = false) l.

(** The C string that starts at the front of [l]. *)
Fixpoint cstr (l : list ascii) : list ascii :=
  match l with
  | [] => []
  | c :: l' => if is_nul c then [] else c :: cstr l'
  end.

(** The C string a pointer [p] into [buf] denotes. *)
Definition cstring_at (buf : list ascii) (p : nat) : list ascii :=
  cstr (skipn p buf).

(** [strchr]: offset of the first [c] in the C string at the front of [l]. *)
Fixpoint strchr_offset (l : list ascii) (c : ascii) : option nat :=
  match l with
  | [] => if is_nul c then Some 0 else None
  | x :: l' =>
      if Ascii.eqb x c then Some 0
      else if is_nul x then None
      else option_map S (strchr_offset l' c)
  end.

Definition strchr (buf : list ascii) (p : nat) (c : ascii) : option nat :=
  option_map (fun k => p + k) (strchr_offset (skipn p buf) c).

Definition isdigit (c : ascii) : bool :=
  let n := N_of_ascii c in ((48 <=? n) && (n <=? 57))%N.

Definition isspace (c : ascii) : bool :=
  let n := N_of_ascii c in (n =? 32)%N || ((9 <=? n) && (n <=? 13))%N.

Definition digit_value (c : ascii) : Z := Z.of_N (N_of_ascii c) - 48.

Fixpoint count_space (l : list ascii) : nat :=
  match l with
  | c :: l' => if isspace c then S (count_space l') else 0
  | [] => 0
  end.

(** The digit loop of the strto* family: value and number of the leading
    decimal digits of [l], starting from [acc]. *)
Fixpoint digits_loop (l : list ascii) (acc : Z) (n : nat) : Z * nat :=
  match l with
  | c :: l' =>
      if isdigit c then digits_loop l' (10 * acc + digit_value c)%Z (S n)
      else (acc, n)
  | [] => (acc, n)
  end.

Definition UINTMAX_MAX : Z := 18446744073709551615.
Definition LONG_MAX : Z := 9223372036854775807.
Definition LONG_MIN : Z := -9223372036854775808.

(** Modelled from the spec: [parse_timestamp] is a macro of the
    compatibility header, which is not part of this file; it stands for
    [strtoumax] and is always called with base 10 here.  White space and
    one sign are skipped, the digits are read, the value saturates at
    [UINTMAX_MAX]; without any digit the value is 0 and the end pointer is
    the start pointer. *)
Definition parse_timestamp (buf : list ascii) (p : nat) : Z * nat :=
  let q := p + count_space (skipn p buf) in
  let c := byte_at buf q in
  let neg := Ascii.eqb c "-" in
  let q1 := if neg || Ascii.eqb c "+" then q + 1 else q in
  let (v, n) := digits_loop (skipn q1 buf) 0%Z 0 in
  if n =? 0 then (0%Z, p)
  else if (UINTMAX_MAX <? v)%Z then (UINTMAX_MAX, q1 + n)
  else if neg then (((UINTMAX_MAX + 1 - v) mod (UINTMAX_MAX + 1))%Z, q1 + n)
  else (v, q1 + n).

(** [strtol(p, NULL, 10)] with a 64-bit [long]. *)
Definition strtol (buf : list ascii) (p : nat) : Z :=
  let q := p + count_space (skipn p buf) in
  let c := byte_at buf q in
  let neg := Ascii.eqb c "-" in
  let q1 := if neg || Ascii.eqb c "+" then q + 1 else q in
  let (v, n) := digits_loop (skipn q1 buf) 0%Z 0 in
  if n =? 0 then 0%Z
  else if neg then (if (- v <? LONG_MIN)%Z then LONG_MIN else - v)%Z
  else (if (LONG_MAX <? v)%Z then LONG_MAX else v).

(** Conversion of a [long] to the [int] field it is assigned to. *)
Definition int_of_long (v : Z) : Z :=
  ((v + 2147483648) mod 4294967296 - 2147483648)%Z.

(** [buf[i] = c], for [i] inside the buffer. *)
Fixpoint set_byte (buf : list ascii) (i : nat) (c : ascii) : list ascii :=
  match buf, i with
  | [], _ => []
  | _ :: buf', 0 => c :: buf'
  | x :: buf', S i' => x :: set_byte buf' i' c
  end.

(** ** The record codec *)

(** Modelled from the spec: [struct bkl_entry] is declared in backup-log.h,
    which is not part of this file.  It holds the two identifiers, the
    timestamp, the timezone (an [int]) and, for the identity and the path,
    the pointers that [bkl_parse_entry] sets into the line buffer. *)
Record bkl_entry := {
  old_oid : object_id;
  new_oid : object_id;
  email : nat;
  timestamp : Z;
  tz : Z;
  path : nat
}.

(** [bkl_append].  [committer_info] is what [git_committer_info(0)]
    returns when the line is formatted; it and [path] are C strings. *)
Definition bkl_append (committer_info : list ascii) (output : strbuf)
    (path : list ascii) (from to : object_id) : strbuf :=
  if oideq from to then output
  else
    output ++ oid_to_hex from ++ [SP] ++ oid_to_hex to ++ [SP]
           ++ committer_info ++ [TAB] ++ path ++ [LF].

(** [bkl_write]: under the lock, the bytes of [new_log] are appended to
    the file, which is created when missing.  [open] and [write_in_full]
    are taken to succeed once the lock is held. *)
Definition bkl_write_unlocked (file : option (list ascii)) (new_log : strbuf)
  : Z * option (list ascii) :=
  match file with
  | None => (0%Z, Some new_log)
  | Some content => (0%Z, Some (content ++ new_log))
  end.

Definition bkl_write (lock_held : bool) (file : option (list ascii))
    (new_log : strbuf) : Z * option (list ascii) :=
  if lock_held then bkl_write_unlocked file new_log
  else ((-1)%Z, file).

(** Result of [bkl_parse_entry]: -1 with the line untouched, or 0 with
    the line as it is left behind and the entry filled in. *)
Inductive parse_result :=
| Corrupt
| Parsed (sb' : strbuf) (re : bkl_entry).

(** The first test of [bkl_parse_entry], up to [email_end[1] != ' ']:
    both identifiers, the pointer [p] behind them and [email_end]. *)
Definition parse_header (sb : strbuf)
  : option (object_id * object_id * nat * nat) :=
  if (length sb =? 0) || negb (is_lf (byte_at sb (length sb - 1))) then None
  else
    match parse_oid_hex sb 0 with
    | None => None
    | Some (old, p) =>
        if negb (Ascii.eqb (byte_at sb p) SP) then None
        else
          let p := p + 1 in
          match parse_oid_hex sb p with
          | None => None
          | Some (new, p) =>
              if negb (Ascii.eqb (byte_at sb p) SP) then None
              else
                let p := p + 1 in
                match strchr sb p ">" with
                | None => None
                | Some email_end =>
                    if negb (Ascii.eqb (byte_at sb (email_end + 1)) SP)
                    then None
                    else Some (old, new, p, email_end)
                end
          end
    end.

(** The tests on [message] in the second [if]: a space, a sign and four
    digits. *)
Definition timezone_shape (sb : strbuf) (message : nat) : bool :=
  Ascii.eqb (byte_at sb message) SP
  && (Ascii.eqb (byte_at sb (message + 1)) "+"
      || Ascii.eqb (byte_at sb (message + 1)) "-")
  && isdigit (byte_at sb (message + 2))
  && isdigit (byte_at sb (message + 3))
  && isdigit (byte_at sb (message + 4))
  && isdigit (byte_at sb (message + 5)).

Definition bkl_parse_entry (sb : strbuf) : parse_result :=
  match parse_header sb with
  | None => Corrupt
  | Some (old, new, p, email_end) =>
      let (ts, message) := parse_timestamp sb (email_end + 2) in
      if (ts =? 0)%Z || negb (timezone_shape sb message) then Corrupt
      else
        let sb1 := set_byte sb (email_end + 1) NUL in
        let tz := int_of_long (strtol sb1 (message + 1)) in
        let message :=
          if negb (Ascii.eqb (byte_at sb1 (message + 6)) TAB)
          then message + 6 else message + 7 in
        let sb2 := set_byte sb1 (length sb - 1) NUL in
        Parsed sb2 {| old_oid := old; new_oid := new; email := p;
                      timestamp := ts; tz := tz; path := message |}
  end.

(** Modelled from the spec: the actor-info provider ([git_committer_info]
    of ident.c, not part of this file) returns a pre-formatted string
    embedding name, bracketed email, timestamp, and signed four-digit
    timezone offset. *)
Definition digit_char (n : Z) : ascii := ascii_of_N (Z.to_N (48 + n)).

Fixpoint decimal_digits (fuel : nat) (n : Z) : list ascii :=
  match fuel with
  | 0 => []
  | S fuel' =>
      (if (n / 10 =? 0)%Z then [] else decimal_digits fuel' (n / 10)%Z)
      ++ [digit_char (n mod 10)]
  end.

Definition decimal (n : Z) : list ascii :=
  decimal_digits (S (Z.to_nat (Z.log2 n))) n.

Definition format_tz (tz : Z) : list ascii :=
  let a := Z.abs tz in
  [(if (tz <? 0)%Z then "-" else "+")%char;
   digit_char (a / 1000 mod 10); digit_char (a / 100 mod 10);
   digit_char (a / 10 mod 10); digit_char (a mod 10)].

(** The identity up to, and without, the closing bracket. *)
Definition ident_who (name mail : list ascii) : list ascii :=
  name ++ [SP; "<"%char] ++ mail.

Definition committer_info (name mail : list ascii) (ts tz : Z) : list ascii :=
  ident_who name mail ++ [">"%char; SP] ++ decimal ts ++ [SP] ++ format_tz tz.

(** ** Observing the callback *)

(** A callback together with the record of the lines it was called on. *)
Definition traced {D : Type} (parse : strbuf -> D -> Z * D)
    (line : strbuf) (st : D * list strbuf) : Z * (D * list strbuf) :=
  let (ret, d') := parse line (fst st) in (ret, (d', snd st ++ [line])).

Definition lf_terminated (line : list ascii) : Prop :=
  exists body, line = body ++ [LF].

Definition starts_with_lf (content : list ascii) : bool :=
  match content with
  | c :: _ => is_lf c
  | [] => false
  end.

Definition returned {D : Type} (r : Z * D) : outcome * D :=
  (Returned (fst r), snd r).

(** ** Building a log *)

(** One call of [bkl_append]: the arguments and the committer string in
    force at that moment. *)
Record log_event := {
  ev_committer : list ascii;
  ev_path : list ascii;
  ev_from : object_id;
  ev_to : object_id
}.

Definition append_event (output : strbuf) (e : log_event) : strbuf :=
  bkl_append (ev_committer e) output (ev_path e) (ev_from e) (ev_to e).

Definition append_events (es : list log_event) : strbuf :=
  fold_left append_event es [].

(** The lines the events stand for: none for a transition to the same
    identifier, else the encoded line. *)
Definition event_lines (es : list log_event) : list strbuf :=
  flat_map (fun e => if oideq (ev_from e) (ev_to e) then []
                     else [append_event [] e]) es.

(** The log file after [bkl_write] was called once for every batch of
    events, starting without a file. *)
Definition write_batch (file : option (list ascii)) (batch : list log_event)
  : option (list ascii) :=
  snd (bkl_write true file (append_events batch)).

Definition write_batches (batches : list (list log_event))
  : option (list ascii) :=
  fold_left write_batch batches None.

Definition content_of (file : option (list ascii)) : list ascii :=
  match file with
  | None => []
  | Some content => content
  end.

(** What [fopen] finds after the file was left in state [file]. *)
Definition fopen_of (file : option (list ascii)) : fopen_result :=
  match file with
  | None => Fopen_null ENOENT
  | Some content => Fopen_stream content
  end.

(** One line: not empty, and no LF except possibly as its last byte. *)
Definition single_line (cur : list ascii) : Prop :=
  cur <> [] /\ no_lf (removelast cur).

(** One LF-terminated line: a body free of LF, then the LF. *)
Definition one_line (l : list ascii) : Prop :=
  exists body, l = body ++ [LF] /\ no_lf body.

(** What follows the last LF of a file that does not end with one: not
    empty and free of LF. *)
Definition unterminated (l : list ascii) : Prop := l <> [] /\ no_lf l.

(** The content cut after every LF: the pieces joined are the content,
    every piece but the last is one LF-terminated line, and the last is
    one too or is the unterminated rest. *)
Definition cut_at_lf (content : list ascii) (ls : list strbuf) : Prop :=
  concat ls = content /\
  Forall one_line (removelast ls) /\
  (ls <> [] -> one_line (last ls []) \/ unterminated (last ls [])).

(** A line of [content] as a reader may hand it to the callback: one
    LF-terminated line, or the unterminated rest that follows the last LF
    of the content (or is the whole content). *)
Definition line_handed (content : list ascii) (l : strbuf) : Prop :=
  one_line l \/
  (unterminated l /\
   exists pre, content = pre ++ l /\ (pre = [] \/ lf_terminated pre)).

(** An encoded line: a non-empty body free of LF, then the LF. *)
Definition encoded_line (l : list ascii) : Prop :=
  exists body, l = body ++ [LF] /\ no_lf body /\ body <> [].

(** ** Decimal numerals *)

Definition all_digits (l : list ascii) : Prop :=
  Forall (fun c => isdigit c = true) l.

Definition digits_value (l : list ascii) : Z :=
  fold_left (fun a c => (10 * a + digit_value c)%Z) l 0%Z.

(** The block size of the GNU C library. *)
Definition glibc_BUFSIZ : nat := 8 * 1024.

(** ** Lines laid out by the grammar *)

(** What the name and the mail address of an identity may contain: the
    ident code strips angle brackets, and a C string holds no NUL. *)
Definition plain (l : list ascii) : Prop :=
  Forall (fun x => Ascii.eqb x ">" = false /\ is_nul x = false) l.

(** The line for the given identifiers and committer string, with [tail]
    for what stands between the timezone digits and the final LF: a tab
    and the path as [bkl_append] writes it, or the bare path of the legacy
    form. *)
Definition line_with_tail (ci tail : list ascii) (old new : object_id)
  : list ascii :=
  oid_to_hex old ++ [SP] ++ oid_to_hex new ++ [SP] ++ ci ++ tail ++ [LF].

Definition legacy_line (ci path : list ascii) (old new : object_id)
  : list ascii :=
  line_with_tail ci path old new.

(** The entry as a caller sees it: the identifiers, the numbers, and the
    two strings behind the pointers. *)
Definition entry_view (sb : strbuf) (re : bkl_entry)
  : object_id * object_id * list ascii * Z * Z * list ascii :=
  (old_oid re, new_oid re, cstring_at sb (email re), timestamp re, tz re,
   cstring_at sb (path re)).

(** Where the pointers of the decoder stand on such a line: [p] behind
    the two identifiers, [email_end] on the closing bracket, [message]
    behind the timestamp. *)
Definition ident_start : nat := GIT_SHA1_HEXSZ + 1 + GIT_SHA1_HEXSZ + 1.

Definition email_end_of (name mail : list ascii) : nat :=
  ident_start + length (ident_who name mail).

Definition message_of (name mail : list ascii) (ts : Z) : nat :=
  email_end_of name mail + 2 + length (decimal ts).

(** The timezone test in the words of the specification: a space, a sign
    and exactly four digits. *)
Definition exactly_four_digits (sb : strbuf) (message : nat) : bool :=
  timezone_shape sb message && negb (isdigit (byte_at sb (message + 6))).

(** The line of the concrete scenario of the specification. *)
Definition example_line : list ascii :=
  bytes ("0000000000000000000000000000000000000000 "
         ++ "aaaaaaaaaaaaaaaaaaaaaaaaaaaaaaaaaaaaaaaa "
         ++ "A U Thor <au@example.com> 1700000000 +0000")
  ++ [TAB] ++ bytes "refs/heads/main" ++ [LF].

(** The same with a fifth digit behind the timezone. *)
Definition five_digit_line : list ascii :=
  bytes ("0000000000000000000000000000000000000000 "
         ++ "aaaaaaaaaaaaaaaaaaaaaaaaaaaaaaaaaaaaaaaa "
         ++ "A U Thor <au@example.com> 1700000000 +00001")
  ++ [TAB] ++ bytes "refs/heads/main" ++ [LF].

(** ** Sample data *)

Definition zero_oid : object_id := repeat NUL GIT_SHA1_RAWSZ.
Definition a_oid : object_id := repeat (ascii_of_N 170) GIT_SHA1_RAWSZ.

Definition example_name : list ascii := bytes "A U Thor".
Definition example_mail : list ascii := bytes "au@example.com".

Definition example_ci : list ascii :=
  committer_info example_name example_mail 1700000000 0.

(** Two transitions and, between them, one to the same identifier,
    written in two batches. *)
Definition example_batches : list (list log_event) :=
  [ [ {| ev_committer := example_ci; ev_path := bytes "refs/heads/main";
         ev_from := zero_oid; ev_to := a_oid |};
      {| ev_committer := example_ci; ev_path := bytes "refs/heads/none";
         ev_from := a_oid; ev_to := a_oid |} ];
    [ {| ev_committer := example_ci; ev_path := bytes "refs/heads/topic";
         ev_from := a_oid; ev_to := zero_oid |} ] ].

Definition example_events : list log_event := concat example_batches.

Definition example_log : list ascii := append_events example_events.

Definition example_fs : filesystem :=
  fun _ => fopen_of (write_batches example_batches).

Definition missing_fs : filesystem := fun _ => Fopen_null ENOENT.

(** [example_line] after a successful [bkl_parse_entry]. *)
Definition example_decoded : strbuf :=
  set_byte (set_byte example_line 107 NUL) 140 NUL.

Definition example_entry : bkl_entry :=
  {| old_oid := zero_oid; new_oid := a_oid; email := 82;
     timestamp := 1700000000; tz := 0; path := 125 |}.

(** A callback that counts the lines and stops at the second. *)
Definition stop_at_second (line : strbuf) (n : nat) : Z * nat :=
  (if n =? 1 then 1%Z else 0%Z, S n).

(** A file of two lines whose last line has no LF. *)
Definition unterminated_log : list ascii := bytes "ab" ++ [LF] ++ bytes "cd".

Definition unterminated_fs : filesystem :=
  fun _ => Fopen_stream unterminated_log.

(** ** The reverse reader on a file that begins with a line feed *)

(** The end of a scan that has nothing left but the carried line feed:
    the leftover check fires unless the callback has stopped the scan. *)
Definition bug_unless_stopped {D : Type} (r : Z * D) : outcome * D :=
  if (fst r =? 0)%Z then (BUG_leftover, snd r) else (Returned (fst r), snd r).

(** A callback that stops at once with [ret]. *)
Definition stop_with (ret : Z) (line : strbuf) (n : nat) : Z * nat :=
  (ret, S n).

(** ** Decoding a whole log *)

(** The fields of one logged transition. *)
Record transition := {
  tr_old : object_id;
  tr_new : object_id;
  tr_name : list ascii;
  tr_mail : list ascii;
  tr_stamp : Z;
  tr_zone : Z;
  tr_path : list ascii
}.

(** The call of [bkl_append] that logs it. *)
Definition transition_event (t : transition) : log_event :=
  {| ev_committer :=
       committer_info (tr_name t) (tr_mail t) (tr_stamp t) (tr_zone t);
     ev_path := tr_path t; ev_from := tr_old t; ev_to := tr_new t |}.

Definition transition_view (t : transition)
  : object_id * object_id * list ascii * Z * Z * list ascii :=
  (tr_old t, tr_new t, ident_who (tr_name t) (tr_mail t) ++ [">"%char],
   tr_stamp t, tr_zone t, tr_path t).

Definition changed (t : transition) : bool :=
  negb (oideq (tr_old t) (tr_new t)).

Definition valid_transition (t : transition) : Prop :=
  valid_oid (tr_old t) /\ valid_oid (tr_new t) /\
  plain (tr_name t) /\ plain (tr_mail t) /\
  no_lf (tr_name t) /\ no_lf (tr_mail t) /\
  (0 < tr_stamp t <= UINTMAX_MAX)%Z /\ (-9999 <= tr_zone t <= 9999)%Z /\
  no_lf (tr_path t) /\ no_nul (tr_path t).

(** A reader callback that decodes the line it is given with
    [bkl_parse_entry], collects what it finds, and stops the iteration
    with -1 on a corrupt line. *)
Definition decode_line (line : strbuf)
    (seen : list (object_id * object_id * list ascii * Z * Z * list ascii))
  : Z * list (object_id * object_id * list ascii * Z * Z * list ascii) :=
  match bkl_parse_entry line with
  | Parsed sb re => (0%Z, seen ++ [entry_view sb re])
  | Corrupt => ((-1)%Z, seen)
  end.

Definition decodes_to (line : strbuf)
    (v : object_id * object_id * list ascii * Z * Z * list ascii) : Prop :=
  exists sb re, bkl_parse_entry line = Parsed sb re /\ entry_view sb re = v.

(** ** The appender with failing system calls *)

(** The log file and whether its lock file exists. *)
Record log_files := {
  log_content : option (list ascii);
  lock_taken : bool
}.

(** What the system does during one call of [bkl_write]: whether taking
    the lock is refused for another reason than an existing lock file,
    whether [open] fails, and after how many bytes [write_in_full] fails,
    if it does. *)
Record sys_outcome := {
  lock_refused : bool;
  open_fails : bool;
  write_fails_after : option nat
}.

(** [bkl_write_unlocked]: -1 when [open] fails, -1 when the write fails,
    with the bytes written until then appended, else 0 with all of
    [new_log] appended; [O_CREAT] creates a missing file. *)
Definition bkl_write_unlocked_sys (sys : sys_outcome)
    (file : option (list ascii)) (new_log : strbuf)
  : Z * option (list ascii) :=
  if open_fails sys then ((-1)%Z, file)
  else
    match write_fails_after sys with
    | Some k => ((-1)%Z, Some (content_of file ++ firstn k new_log))
    | None => (0%Z, Some (content_of file ++ new_log))
    end.

(** [bkl_write]: -1 when the lock cannot be taken; else the result of
    [bkl_write_unlocked], and the lock file is removed by
    [rollback_lock_file] in every case. *)
Definition bkl_write_sys (sys : sys_outcome) (st : log_files)
    (new_log : strbuf) : Z * log_files :=
  if lock_taken st || lock_refused sys then ((-1)%Z, st)
  else
    let (ret, file') := bkl_write_unlocked_sys sys (log_content st) new_log in
    (ret, {| log_content := file'; lock_taken := false |}).

Definition no_failure : sys_outcome :=
  {| lock_refused := false; open_fails := false; write_fails_after := None |}.

(** * Proofs *)

(** ** Slices *)

Lemma firstn_plus (A : Type) (n m : nat) (l : list A) :
  firstn (n + m) l = firstn n l ++ firstn m (skipn n l).
Proof.
  revert l; induction n as [|n IH]; intros [|a l]; simpl; try reflexivity.
  - now rewrite firstn_nil.
  - now rewrite IH.
Qed.

Lemma slice_app (l : list ascii) (a b c : nat) :
  a <= b -> b <= c -> slice l a b ++ slice l b c = slice l a c.
Proof.
  intros Hab Hbc; unfold slice.
  replace (c - a) with ((b - a) + (c - b)) by lia.
  rewrite firstn_plus, skipn_skipn.
  now replace (b - a + a) with b by lia.
Qed.

Lemma slice_from_0 (l : list ascii) (n : nat) : slice l 0 n = firstn n l.
Proof. unfold slice; now rewrite Nat.sub_0_r. Qed.

Lemma slice_one (l : list ascii) (i : nat) :
  i < length l -> slice l i (S i) = [byte_at l i].
Proof.
  unfold slice, byte_at; replace (S i - i) with 1 by lia.
  revert i; induction l as [|a l IH]; intros [|i] H; simpl in *; try lia.
  - reflexivity.
  - now apply IH; lia.
Qed.

Lemma slice_empty (l : list ascii) (i : nat) : slice l i i = [].
Proof. unfold slice; now rewrite Nat.sub_diag. Qed.

Lemma slice_length (l : list ascii) (a b : nat) :
  a <= b -> b <= length l -> length (slice l a b) = b - a.
Proof.
  intros; unfold slice; rewrite length_firstn, length_skipn; lia.
Qed.

Lemma slice_slice (l : list ascii) (a b c e : nat) :
  a + e <= b -> slice (slice l a b) c e = slice l (a + c) (a + e).
Proof.
  intros H; unfold slice.
  rewrite skipn_firstn_comm, firstn_firstn, skipn_skipn.
  rewrite (Nat.add_comm c a). f_equal. lia.
Qed.

Lemma byte_at_slice (l : list ascii) (a b i : nat) :
  a + i < b -> byte_at (slice l a b) i = byte_at l (a + i).
Proof.
  intros H; unfold slice, byte_at.
  rewrite nth_firstn, nth_skipn.
  now rewrite (proj2 (Nat.ltb_lt i (b - a))) by lia.
Qed.

(** ** find_beginning_of_line *)

Lemma find_beginning_of_line_S (buf : list ascii) (scan : nat) :
  find_beginning_of_line buf 0 (S scan) =
  if is_lf (byte_at buf scan) then scan else find_beginning_of_line buf 0 scan.
Proof. reflexivity. Qed.

(** The scan stops strictly before [scan], on a LF or at the start of the
    buffer, and steps over no LF on its way. *)
Lemma find_beginning_of_line_spec (buf : list ascii) (scan : nat) :
  0 < scan -> scan <= length buf ->
  let bp := find_beginning_of_line buf 0 scan in
  bp < scan /\
  no_lf (slice buf (S bp) scan) /\
  (is_lf (byte_at buf bp) = false -> bp = 0).
Proof.
  induction scan as [|s IH]; [lia|].
  intros _ Hlen. rewrite find_beginning_of_line_S.
  destruct (is_lf (byte_at buf s)) eqn:E; cbv zeta.
  - rewrite slice_empty, E. repeat split; [lia | constructor | discriminate].
  - destruct s as [|s].
    + simpl. rewrite slice_empty. repeat split; [lia | constructor].
    + destruct IH as (Hlt & Hno & Hstop); [lia | lia |].
      repeat split; [lia | | exact Hstop].
      rewrite <- (slice_app buf _ (S s) (S (S s))) by lia.
      apply Forall_app; split; [exact Hno|].
      rewrite slice_one by lia. now constructor.
Qed.

Lemma firstn_split_at (buf : list ascii) (bp scan : nat) :
  bp < scan -> scan <= length buf ->
  firstn scan buf = firstn bp buf ++ byte_at buf bp :: slice buf (S bp) scan.
Proof.
  intros Hlt Hlen.
  rewrite <- !slice_from_0.
  rewrite <- (slice_app buf 0 bp scan) by lia.
  rewrite <- (slice_app buf bp (S bp) scan) by lia.
  now rewrite slice_one by lia.
Qed.

(** ** Lines *)

Lemma read_line_spec (fp : list ascii) :
  fp <> [] ->
  lines_of fp = fst (read_line fp) :: lines_of (snd (read_line fp)) /\
  length (snd (read_line fp)) < length fp.
Proof.
  induction fp as [|c fp IH]; [congruence|]. intros _.
  simpl. destruct (is_lf c); [simpl; split; [reflexivity | lia]|].
  destruct fp as [|c' fp'].
  - simpl. split; [reflexivity | lia].
  - destruct IH as [Hl Hlt]; [discriminate|].
    rewrite Hl. destruct (read_line (c' :: fp')) as [l rest].
    simpl in *. split; [reflexivity | lia].
Qed.

Lemma lines_of_nonempty (l : list ascii) : l <> [] -> lines_of l <> [].
Proof.
  destruct l as [|c l]; [congruence|]. intros _. simpl.
  destruct (is_lf c); [discriminate|].
  destruct (lines_of l); discriminate.
Qed.

(** A line feed ends a line whatever follows. *)
Lemma lines_of_app_lf (p q : list ascii) :
  lines_of ((p ++ [LF]) ++ q) = lines_of (p ++ [LF]) ++ lines_of q.
Proof.
  induction p as [|a p IH]; [reflexivity|].
  simpl. destruct (is_lf a).
  - now rewrite IH.
  - rewrite IH.
    pose proof (lines_of_nonempty (p ++ [LF])) as Hne.
    destruct (lines_of (p ++ [LF])); [|reflexivity].
    exfalso. apply Hne; [|reflexivity]. now destruct p.
Qed.

Lemma lines_of_single (cur : list ascii) :
  single_line cur -> lines_of cur = [cur].
Proof.
  intros [Hne Hno]. induction cur as [|c cur IH]; [congruence|].
  destruct cur as [|c' t].
  - simpl. now destruct (is_lf c).
  - change (removelast (c :: c' :: t)) with (c :: removelast (c' :: t)) in Hno.
    inversion Hno as [|? ? Hc Ht]; subst.
    change (lines_of (c :: c' :: t))
      with (if is_lf c then [c] :: lines_of (c' :: t)
            else match lines_of (c' :: t) with
                 | [] => [[c]]
                 | l :: ls => (c :: l) :: ls
                 end).
    rewrite Hc, IH; [reflexivity | discriminate | exact Ht].
Qed.

Lemma single_line_lf : single_line [LF].
Proof. split; [discriminate | constructor]. Qed.

Lemma single_line_cons (c : ascii) (cur : list ascii) :
  is_lf c = false -> single_line cur -> single_line (c :: cur).
Proof.
  intros Hc [Hne Hno]. split; [discriminate|].
  destruct cur as [|c' t]; [congruence|].
  change (removelast (c :: c' :: t)) with (c :: removelast (c' :: t)).
  now constructor.
Qed.

Section ReaderProofs.

Variable BUFSIZ : nat.
Variable D : Type.
Variable parse : strbuf -> D -> Z * D.


(** Bytes other than LF are collected in front of the current line. *)
Lemma backward_walk_skip (t r : list ascii) (cur : strbuf) (d : D) :
  no_lf t ->
  backward_walk parse (rev t ++ r) cur d = backward_walk parse r (t ++ cur) d.
Proof.
  revert r; induction t as [|a t IH]; intros r Hno; [reflexivity|].
  inversion Hno as [|? ? Ha Ht]; subst.
  simpl rev. rewrite <- app_assoc. rewrite IH by assumption.
  simpl. now rewrite Ha.
Qed.

(** One block: the inner loop produces a state from which the walk over
    the rest of the file goes on as if there were no block boundary. *)
Lemma scan_block_spec (buf : list ascii) (pos : nat) (rP : list ascii) :
  (pos = 0 <-> rP = []) ->
  forall scanp fuel sb endp d,
    0 < scanp -> scanp <= fuel -> scanp <= endp -> endp <= length buf ->
    exists r,
      scan_block parse fuel buf pos sb scanp endp d = Some r /\
      resume parse pos rP r =
      backward_walk parse (rev (firstn scanp buf) ++ rP)
                    (slice buf scanp endp ++ sb) d.
Proof.
  intros Hpos scanp.
  induction scanp as [scanp IH] using lt_wf_ind.
  intros fuel sb endp d Hs Hf He Hb.
  destruct fuel as [|fuel]; [lia|].
  cbn [scan_block].
  rewrite (proj2 (Nat.ltb_lt 0 scanp) Hs).
  destruct (find_beginning_of_line_spec buf scanp Hs ltac:(lia))
    as (Hlt & Hno & Hstop).
  cbv zeta in *.
  set (bp := find_beginning_of_line buf 0 scanp) in *.
  rewrite (firstn_split_at buf bp scanp) by lia.
  rewrite rev_app_distr. simpl rev. rewrite <- !app_assoc.
  rewrite backward_walk_skip by assumption.
  simpl app at 1.
  unfold strbuf_splice_front, strbuf_reset.
  rewrite Nat.add_1_r.
  rewrite (app_assoc (slice buf (S bp) scanp)), slice_app by lia.
  destruct (is_lf (byte_at buf bp)) eqn:E.
  - cbn [backward_walk]. rewrite E.
    destruct (parse (slice buf (S bp) endp ++ sb) d) as [ret d1].
    destruct (ret =? 0)%Z eqn:Eret; cbn [negb].
    + destruct (bp =? 0) eqn:Ebp.
      * apply Nat.eqb_eq in Ebp. eexists; split; [reflexivity|].
        unfold resume. rewrite Eret; cbn [negb].
        rewrite Ebp in *. rewrite slice_one by lia. simpl.
        destruct rP as [|c rP'].
        -- rewrite (proj2 (Nat.eqb_eq pos 0)) by (now apply Hpos).
           unfold leftover_check. rewrite Eret. reflexivity.
        -- destruct (pos =? 0) eqn:Ep.
           ++ apply Nat.eqb_eq, Hpos in Ep. discriminate.
           ++ reflexivity.
      * apply Nat.eqb_neq in Ebp.
        destruct (IH bp Hlt fuel [] (S bp) d1) as (r & Hr & Hres);
          try lia.
        exists r; split; [exact Hr|]. rewrite Hres.
        rewrite slice_one, app_nil_r by lia.
        destruct (rev (firstn bp buf) ++ rP) as [|c r'] eqn:El.
        -- apply (f_equal (@length ascii)) in El.
           rewrite length_app, length_rev, length_firstn in El.
           simpl in El. lia.
        -- reflexivity.
    + eexists; split; [reflexivity|].
      unfold resume. rewrite Eret. reflexivity.
  - assert (Hbp : bp = 0) by (apply Hstop; reflexivity).
    cbn [backward_walk]. rewrite E.
    rewrite Hbp in *. simpl firstn. simpl rev. simpl app at 1.
    assert (Hcur : byte_at buf 0 :: slice buf 1 endp ++ sb
                   = slice buf 0 endp ++ sb).
    { rewrite <- (slice_app buf 0 1 endp) by lia.
      now rewrite slice_one by lia. }
    rewrite Hcur.
    destruct (pos =? 0) eqn:Ep.
    + apply Nat.eqb_eq in Ep.
      rewrite (proj1 Hpos Ep). cbn [app backward_walk].
      destruct (parse (slice buf 0 endp ++ sb) d) as [ret d1].
      eexists; split; [reflexivity|].
      unfold resume, leftover_check. rewrite Ep. simpl.
      destruct (ret =? 0)%Z eqn:Eret; simpl; [|reflexivity].
      apply Z.eqb_eq in Eret. now subst.
    + simpl. eexists; split; [reflexivity|].
      unfold resume. simpl. now rewrite Ep.
Qed.

(** One block of the file, read at [pos - cnt] and scanned from [scanp]. *)
Lemma reverse_block_spec (f : list ascii) (pos cnt scanp : nat)
    (sb : strbuf) (d : D) :
  cnt <= pos -> pos <= length f -> 0 < scanp -> scanp <= cnt ->
  exists r,
    scan_block parse (S scanp) (slice f (pos - cnt) pos) (pos - cnt)
               sb scanp cnt d = Some r /\
    resume parse (pos - cnt) (rev (firstn (pos - cnt) f)) r =
    backward_walk parse (rev (firstn (pos - cnt + scanp) f))
                  (slice f (pos - cnt + scanp) pos ++ sb) d.
Proof.
  intros Hc Hp Hs Hsc.
  set (buf := slice f (pos - cnt) pos).
  assert (Hlen : length buf = cnt)
    by (unfold buf; rewrite slice_length; lia).
  destruct (scan_block_spec buf (pos - cnt) (rev (firstn (pos - cnt) f)))
    with (scanp := scanp) (fuel := S scanp) (sb := sb) (endp := cnt) (d := d)
    as (r & Hr & Hres); try lia.
  - split; intros H.
    + now rewrite H.
    + apply (f_equal (@length ascii)) in H.
      rewrite length_rev, length_firstn in H. simpl in H. lia.
  - exists r; split; [exact Hr|]. rewrite Hres.
    rewrite <- rev_app_distr. unfold buf.
    rewrite <- (slice_from_0 (slice _ _ _)), !slice_slice by lia.
    rewrite <- (slice_from_0 f (pos - cnt)).
    rewrite Nat.add_0_r, slice_app, slice_from_0 by lia.
    now replace (pos - cnt + cnt) with pos by lia.
Qed.

(** The outer loop from a block boundary on. *)
Lemma reverse_loop_spec (f : list ascii) :
  1 <= BUFSIZ ->
  forall pos fuel ret sb d,
    pos <= length f -> pos <= fuel ->
    option_map leftover_check
               (reverse_loop BUFSIZ parse fuel f pos false ret sb d) =
    Some (resume parse pos (rev (firstn pos f)) (ret, sb, d)).
Proof.
  intros HB pos.
  induction pos as [pos IH] using lt_wf_ind.
  intros fuel ret sb d Hp Hf.
  destruct (ret =? 0)%Z eqn:Eret.
  - destruct (0 <? pos) eqn:Epos.
    + apply Nat.ltb_lt in Epos.
      destruct fuel as [|fuel]; [lia|].
      cbn [reverse_loop]. rewrite Eret.
      rewrite (proj2 (Nat.ltb_lt 0 pos) Epos). cbn [andb].
      set (cnt := if BUFSIZ <? pos then BUFSIZ else pos).
      assert (Hcnt : 0 < cnt /\ cnt <= pos)
        by (unfold cnt; destruct (Nat.ltb_spec BUFSIZ pos); lia).
      destruct (reverse_block_spec f pos cnt cnt sb d)
        as ([[ret' sb'] d'] & Hr & Hres); try lia.
      rewrite Hr. rewrite IH by lia. f_equal.
      rewrite Hres. unfold resume. rewrite Eret. cbn [negb].
      rewrite (proj2 (Nat.eqb_neq pos 0)) by lia.
      replace (pos - cnt + cnt) with pos by lia.
      now rewrite slice_empty.
    + apply Nat.ltb_ge in Epos. assert (pos = 0) by lia; subst pos.
      unfold resume, leftover_check.
      destruct fuel; cbn [reverse_loop]; rewrite Eret;
        cbn; rewrite ?Eret; reflexivity.
  - unfold resume, leftover_check.
    destruct fuel; cbn [reverse_loop]; rewrite Eret;
      cbn; rewrite ?Eret; reflexivity.
Qed.

(** The reverse reader computes [reverse_spec], whatever the block size
    from two bytes on. *)
Lemma reverse_scan_spec (f : list ascii) (d : D) :
  2 <= BUFSIZ ->
  reverse_scan BUFSIZ parse f d = Some (reverse_spec parse f d).
Proof.
  intros HB. unfold reverse_scan, reverse_spec.
  destruct f as [|a f'] using rev_ind; [reflexivity|]. clear IHf'.
  rename f' into g, a into c.
  rewrite rev_app_distr. simpl rev. simpl app.
  set (f := g ++ [c]).
  assert (Hn : length f = S (length g))
    by (unfold f; rewrite length_app; simpl; lia).
  cbn [reverse_loop]. rewrite Hn.
  change (0 <? S (length g)) with true. cbn [Z.eqb andb].
  set (cnt := if BUFSIZ <? S (length g) then BUFSIZ else S (length g)).
  assert (Hcnt : 0 < cnt /\ cnt <= S (length g))
    by (unfold cnt; destruct (Nat.ltb_spec BUFSIZ (S (length g))); lia).
  assert (Hlast : byte_at (slice f (S (length g) - cnt) (S (length g)))
                          (cnt - 1) = c).
  { rewrite byte_at_slice by lia.
    replace (S (length g) - cnt + (cnt - 1)) with (length g) by lia.
    unfold byte_at, f. apply nth_middle. }
  rewrite Hlast.
  assert (Hg : firstn (length g) f = g).
  { unfold f. rewrite firstn_app, Nat.sub_diag, firstn_all. simpl.
    apply app_nil_r. }
  assert (Hc : slice f (length g) (S (length g)) = [c]).
  { rewrite slice_one by lia. unfold byte_at, f. now rewrite nth_middle. }
  destruct (is_lf c) eqn:E.
  - destruct g as [|b g'].
    + simpl in cnt. assert (cnt = 1)
        by (unfold cnt; destruct (Nat.ltb_spec BUFSIZ 1); lia).
      rewrite H. reflexivity.
    + set (g := b :: g') in *.
      assert (Hc2 : 2 <= cnt).
      { unfold cnt. destruct (Nat.ltb_spec BUFSIZ (S (length g))); [lia|].
        simpl; lia. }
      destruct (reverse_block_spec f (S (length g)) cnt (cnt - 1) [] d)
        as ([[ret' sb'] d'] & Hr & Hres); try lia.
      rewrite Hr. rewrite reverse_loop_spec by lia. f_equal.
      rewrite Hres.
      replace (S (length g) - cnt + (cnt - 1)) with (length g) by lia.
      rewrite Hg, Hc. unfold g at 2. simpl rev.
      destruct (rev g' ++ [b]) eqn:El; [|reflexivity].
      now destruct (rev g').
  - cbn [andb].
    destruct (reverse_block_spec f (S (length g)) cnt cnt [] d)
      as ([[ret' sb'] d'] & Hr & Hres); try lia.
    rewrite Hr. rewrite reverse_loop_spec by lia. f_equal.
    rewrite Hres.
    replace (S (length g) - cnt + cnt) with (length f) by lia.
    rewrite firstn_all, Hn, slice_empty. unfold f.
    rewrite rev_app_distr. reflexivity.
Qed.

(** *** The forward reader *)

Lemma forward_loop_spec (fuel : nat) :
  forall fp ret d,
    length fp <= fuel ->
    forward_loop parse fuel fp ret d =
    Some (if (ret =? 0)%Z then feed parse (lines_of fp) d else (ret, d)).
Proof.
  induction fuel as [|fuel IH]; intros fp ret d Hlen.
  - destruct fp; [|simpl in Hlen; lia]. simpl.
    destruct (ret =? 0)%Z eqn:E; [|reflexivity].
    apply Z.eqb_eq in E. now subst.
  - cbn [forward_loop].
    destruct (ret =? 0)%Z eqn:E; [|reflexivity].
    destruct fp as [|c fp'].
    + simpl. apply Z.eqb_eq in E. now subst.
    + unfold strbuf_getwholeline.
      pose proof (read_line_spec (c :: fp') ltac:(discriminate)) as Hr.
      destruct (read_line (c :: fp')) as [l rest].
      destruct Hr as [Hl Hlt]. rewrite Hl. cbn [feed fst snd] in *.
      destruct (parse l d) as [ret' d'].
      rewrite IH by (simpl in *; lia). reflexivity.
Qed.

(** *** The reverse walk and the lines of the file *)

Lemma backward_walk_lines (pre : list ascii) :
  forall cur d,
    starts_with_lf pre = false -> single_line cur ->
    backward_walk parse (rev pre) cur d =
    returned (feed parse (rev (lines_of (pre ++ cur))) d).
Proof.
  induction pre as [|c p IH] using rev_ind; intros cur d Hhd Hcur.
  - simpl. rewrite (lines_of_single cur Hcur). simpl.
    destruct (parse cur d) as [ret d'].
    destruct (ret =? 0)%Z eqn:E; [|reflexivity].
    apply Z.eqb_eq in E. now subst.
  - rewrite rev_app_distr. simpl rev. simpl app.
    cbn [backward_walk].
    destruct (is_lf c) eqn:E.
    + assert (Hc : c = LF) by (now apply Ascii.eqb_eq).
      rewrite Hc in *.
      rewrite lines_of_app_lf, (lines_of_single cur Hcur).
      rewrite rev_app_distr. simpl rev. simpl app. cbn [feed].
      destruct (parse cur d) as [ret d'].
      destruct (ret =? 0)%Z eqn:Er; cbn [negb]; [|reflexivity].
      destruct p as [|b p']; [discriminate Hhd|].
      destruct (rev (b :: p')) as [|x r'] eqn:Erev.
      * apply (f_equal (@length ascii)) in Erev.
        rewrite length_rev in Erev. discriminate.
      * cbv iota.
        rewrite (IH [LF] d') by (auto using single_line_lf). reflexivity.
    + rewrite <- app_assoc. simpl app.
      apply IH.
      * destruct p; [reflexivity | exact Hhd].
      * now apply single_line_cons.
Qed.

(** On a file that does not begin with a line feed, the reverse walk
    feeds the callback the lines of the file, last line first. *)
Lemma reverse_spec_lines (f : list ascii) (d : D) :
  starts_with_lf f = false ->
  reverse_spec parse f d = returned (feed parse (rev (lines_of f)) d).
Proof.
  intros Hhd. unfold reverse_spec.
  destruct f as [|c g _] using rev_ind; [reflexivity|].
  rewrite rev_app_distr. simpl rev. simpl app. cbv iota.
  assert (Hg : starts_with_lf g = false)
    by (destruct g; [reflexivity | exact Hhd]).
  destruct (is_lf c) eqn:E.
  - destruct g as [|b g']; [simpl in Hhd; congruence|].
    destruct (rev (b :: g')) as [|x r'] eqn:Erev.
    + apply (f_equal (@length ascii)) in Erev.
      rewrite length_rev in Erev. discriminate.
    + cbv iota. rewrite <- Erev. apply backward_walk_lines; [exact Hg|].
      assert (Hc : c = LF) by (now apply Ascii.eqb_eq).
      rewrite Hc. apply single_line_lf.
  - cbn [backward_walk]. rewrite E.
    apply backward_walk_lines; [exact Hg|].
    split; [discriminate | constructor].
Qed.

End ReaderProofs.

(** ** Recording callbacks *)

Lemma feed_record_line (ls seen : list strbuf) :
  feed record_line ls seen = (0%Z, seen ++ ls).
Proof.
  revert seen; induction ls as [|l ls IH]; intros seen; simpl.
  - now rewrite app_nil_r.
  - rewrite IH, <- app_assoc. reflexivity.
Qed.

(** ** Cutting a file into lines *)

Lemma concat_lines_of (f : list ascii) : concat (lines_of f) = f.
Proof.
  induction f as [|c f IH]; [reflexivity|]. simpl.
  destruct (is_lf c); [simpl; now rewrite IH|].
  destruct (lines_of f) as [|l ls] eqn:E.
  - destruct f as [|c' f']; [reflexivity|].
    exfalso. now apply (lines_of_nonempty (c' :: f')).
  - simpl in *. now rewrite IH.
Qed.

Lemma lines_of_all_single (f : list ascii) : Forall single_line (lines_of f).
Proof.
  induction f as [|c f IH]; [constructor|]. simpl.
  destruct (is_lf c) eqn:E.
  - constructor; [|exact IH]. split; [discriminate | constructor].
  - destruct (lines_of f) as [|l ls].
    + repeat constructor. discriminate.
    + inversion IH; subst. constructor; [|assumption].
      now apply single_line_cons.
Qed.

Lemma backward_walk_leading_lf (D : Type) (parse : strbuf -> D -> Z * D)
    (pre : list ascii) :
  forall cur d,
    single_line cur ->
    backward_walk parse (rev (LF :: pre)) cur d =
    bug_unless_stopped (feed parse (rev (lines_of (pre ++ cur))) d).
Proof.
  induction pre as [|c p IH] using rev_ind; intros cur d Hcur.
  - simpl. rewrite (lines_of_single cur Hcur). simpl.
    change (is_lf LF) with true. cbv iota.
    unfold bug_unless_stopped.
    destruct (parse cur d) as [ret d'].
    destruct (ret =? 0)%Z eqn:E; cbn [fst snd negb]; rewrite ?E; reflexivity.
  - change (LF :: p ++ [c]) with ((LF :: p) ++ [c]).
    rewrite rev_app_distr. change (rev [c]) with [c]. cbn [app].
    cbn [backward_walk].
    destruct (is_lf c) eqn:E.
    + assert (Hc : c = LF) by (now apply Ascii.eqb_eq). rewrite Hc in *.
      rewrite lines_of_app_lf, (lines_of_single cur Hcur).
      rewrite rev_app_distr. change (rev [cur]) with [cur]. cbn [app].
      cbn [feed].
      destruct (parse cur d) as [ret d'].
      destruct (ret =? 0)%Z eqn:Er; cbn [negb].
      * destruct (rev (LF :: p)) as [|x r'] eqn:Erev.
        -- apply (f_equal (@length ascii)) in Erev.
           rewrite length_rev in Erev. discriminate.
        -- cbv iota. rewrite (IH [LF] d' single_line_lf). reflexivity.
      * unfold bug_unless_stopped. cbn [fst snd]. now rewrite Er.
    + rewrite <- app_assoc. simpl app.
      apply IH. now apply single_line_cons.
Qed.

Lemma reverse_scan_leading_lf (BUFSIZ : nat) (D : Type)
    (parse : strbuf -> D -> Z * D) (rest : list ascii) (d : D) :
  2 <= BUFSIZ -> rest <> [] ->
  reverse_scan BUFSIZ parse (LF :: rest) d =
  Some (bug_unless_stopped (feed parse (rev (lines_of rest)) d)).
Proof.
  intros HB Hrest.
  rewrite reverse_scan_spec by assumption. f_equal.
  unfold reverse_spec.
  destruct rest as [|c g _] using rev_ind; [congruence|].
  change (LF :: g ++ [c]) with ((LF :: g) ++ [c]).
  rewrite rev_app_distr. change (rev [c]) with [c]. cbn [app]. cbv iota.
  destruct (is_lf c) eqn:E.
  - destruct (rev (LF :: g)) as [|x r'] eqn:Erev.
    + apply (f_equal (@length ascii)) in Erev.
      rewrite length_rev in Erev. discriminate.
    + rewrite <- Erev.
      assert (Hc : c = LF) by (now apply Ascii.eqb_eq). rewrite Hc.
      apply backward_walk_leading_lf. apply single_line_lf.
  - cbn [backward_walk]. rewrite E.
    apply backward_walk_leading_lf. split; [discriminate | constructor].
Qed.

Lemma rev_lines_head (ls : list strbuf) :
  ls <> [] -> rev ls = last ls [] :: rev (removelast ls).
Proof.
  intros H. destruct (exists_last H) as (l' & a & ->).
  rewrite rev_app_distr, last_last, removelast_last. reflexivity.
Qed.

(** ** The lines of a file *)

Lemma Forall_removelast (A : Type) (P : A -> Prop) (l : list A) :
  Forall P l -> Forall P (removelast l).
Proof.
  induction 1 as [|x l Hx Hl IH]; [constructor|].
  destruct l as [|y l']; [constructor|].
  change (removelast (x :: y :: l')) with (x :: removelast (y :: l')).
  now constructor.
Qed.

Lemma one_line_single (l : list ascii) : one_line l -> single_line l.
Proof.
  intros (body & -> & Hb). split; [now destruct body|].
  now rewrite removelast_last.
Qed.

Lemma unterminated_single (l : list ascii) : unterminated l -> single_line l.
Proof. intros [Hne Hno]. split; [exact Hne | now apply Forall_removelast]. Qed.

Lemma one_line_cons (c : ascii) (l : list ascii) :
  is_lf c = false -> one_line l -> one_line (c :: l).
Proof.
  intros Hc (body & -> & Hb). exists (c :: body).
  split; [reflexivity | now constructor].
Qed.

Lemma one_line_lf : one_line [LF].
Proof. exists []. split; [reflexivity | constructor]. Qed.

Lemma lf_terminated_cons (c : ascii) (f : list ascii) :
  f <> [] -> (lf_terminated (c :: f) <-> lf_terminated f).
Proof.
  intros Hf. split; intros [body H].
  - destruct body as [|b body].
    + simpl in H. inversion H. congruence.
    + simpl in H. inversion H. now exists body.
  - exists (c :: body). now rewrite H.
Qed.

Lemma not_lf_terminated_byte (c : ascii) :
  is_lf c = false -> ~ lf_terminated [c].
Proof.
  intros Hc [body H]. destruct body as [|b [|b' body]]; simpl in H;
    inversion H; subst. discriminate Hc.
Qed.

Lemma not_lf_terminated_last (body : list ascii) (c : ascii) :
  is_lf c = false -> ~ lf_terminated (body ++ [c]).
Proof.
  intros Hc [b H]. apply app_inj_tail in H. destruct H as [_ H].
  subst c. discriminate Hc.
Qed.

(** The lines of a file: all but the last end with their only LF; the last
    does when the file ends with LF, and is the unterminated rest
    otherwise. *)
Lemma lines_of_shape (f : list ascii) :
  f = [] \/
  exists init lst,
    lines_of f = init ++ [lst] /\ Forall one_line init /\
    ((one_line lst /\ lf_terminated f) \/
     (unterminated lst /\ ~ lf_terminated f)).
Proof.
  induction f as [|c f IH]; [now left|]. right.
  destruct IH as [-> | (init & lst & El & Hi & Hl)].
  - simpl. destruct (is_lf c) eqn:E.
    + assert (Hc : c = LF) by (now apply Ascii.eqb_eq). subst c.
      exists [], [LF]. split; [reflexivity|]. split; [constructor|].
      left. split; [apply one_line_lf | now exists []].
    + exists [], [c]. split; [reflexivity|]. split; [constructor|].
      right. split; [|now apply not_lf_terminated_byte].
      split; [discriminate | now repeat constructor].
  - assert (Hf : f <> []).
    { intros ->. simpl in El. now destruct init. }
    pose proof (lf_terminated_cons c f Hf) as Hiff.
    cbn [lines_of]. destruct (is_lf c) eqn:E.
    + assert (Hc : c = LF) by (now apply Ascii.eqb_eq). subst c.
      exists ([LF] :: init), lst. rewrite El.
      split; [reflexivity|]. split; [constructor; [apply one_line_lf | exact Hi]|].
      destruct Hl as [[H1 H2] | [H1 H2]]; [left | right];
        (split; [exact H1 | tauto]).
    + rewrite El. destruct init as [|l0 init'].
      * cbn [app]. exists [], (c :: lst).
        split; [reflexivity|]. split; [constructor|].
        destruct Hl as [[H1 H2] | [[H0 H1] H2]]; [left | right].
        -- split; [now apply one_line_cons | tauto].
        -- split; [|tauto]. split; [discriminate | now constructor].
      * cbn [app]. exists ((c :: l0) :: init'), lst.
        split; [reflexivity|].
        inversion Hi as [|? ? Hl0 Hinit]; subst.
        split; [constructor; [now apply one_line_cons | exact Hinit]|].
        destruct Hl as [[H1 H2] | [H1 H2]]; [left | right];
          (split; [exact H1 | tauto]).
Qed.

Lemma lines_of_cut_at_lf (f : list ascii) : cut_at_lf f (lines_of f).
Proof.
  split; [apply concat_lines_of|].
  destruct (lines_of_shape f) as [-> | (init & lst & El & Hi & Hl)].
  - split; [constructor | intros H; now contradiction H].
  - rewrite El, removelast_last, last_last.
    split; [exact Hi|]. intros _. tauto.
Qed.

(** There is one way only to cut a content after every LF. *)
Lemma cut_at_lf_lines_of (content : list ascii) (ls : list strbuf) :
  cut_at_lf content ls -> ls = lines_of content.
Proof.
  intros (Hc & Hi & Hl). subst content. symmetry.
  induction ls as [|l t IH]; [reflexivity|].
  destruct t as [|l2 t'].
  - simpl. rewrite app_nil_r. apply lines_of_single.
    destruct Hl as [H | H]; [discriminate | |];
      [now apply one_line_single | now apply unterminated_single].
  - change (removelast (l :: l2 :: t')) with (l :: removelast (l2 :: t')) in Hi.
    inversion Hi as [|? ? Hl1 Hrest]; subst.
    change (concat (l :: l2 :: t')) with (l ++ concat (l2 :: t')).
    destruct Hl1 as (body & -> & Hb).
    rewrite lines_of_app_lf, IH.
    + rewrite lines_of_single; [reflexivity|].
      apply one_line_single. now exists body.
    + exact Hrest.
    + intros _. apply Hl. discriminate.
Qed.

Lemma concat_one_lines (init : list strbuf) :
  Forall one_line init -> concat init = [] \/ lf_terminated (concat init).
Proof.
  induction 1 as [|x t (body & -> & Hb) Ht IH]; [now left|]. right.
  simpl. destruct IH as [-> | [b' ->]].
  - rewrite app_nil_r. now exists body.
  - exists ((body ++ [LF]) ++ b'). now rewrite app_assoc.
Qed.

(** Every line of a file is LF-terminated, but for the unterminated rest of
    a file without final LF, which is its last line. *)
Lemma lines_of_handed (content : list ascii) :
  (forall l, In l (lines_of content) -> line_handed content l) /\
  Forall one_line (removelast (lines_of content)) /\
  (content = [] \/ lf_terminated content -> Forall one_line (lines_of content)).
Proof.
  pose proof (concat_lines_of content) as Hcat.
  destruct (lines_of_shape content) as [-> | (init & lst & El & Hi & Hl)].
  - simpl. split; [intros l []|]. split; constructor.
  - rewrite El in *. rewrite removelast_last.
    split; [|split; [exact Hi|]].
    + intros l Hin. apply in_app_or in Hin.
      destruct Hin as [Hin | [<- | []]].
      * left. rewrite Forall_forall in Hi. now apply Hi.
      * destruct Hl as [[H1 _] | [H1 _]]; [now left|]. right.
        split; [exact H1|]. exists (concat init). split.
        -- rewrite <- Hcat, concat_app. simpl. now rewrite app_nil_r.
        -- now apply concat_one_lines.
    + intros Hc. apply Forall_app. split; [exact Hi|].
      constructor; [|constructor].
      destruct Hl as [[H1 _] | [_ H2]]; [exact H1|].
      destruct Hc as [-> | Hc]; [|contradiction].
      simpl in El. now destruct init.
Qed.

(** What the forward reader has handed over when it stops: the first lines
    of the file. *)
Lemma handed_forward (content : list ascii) (seen rest : list strbuf) :
  lines_of content = seen ++ rest ->
  Forall (line_handed content) seen /\
  Forall one_line (removelast seen) /\
  (content = [] \/ lf_terminated content -> Forall one_line seen).
Proof.
  intros E. destruct (lines_of_handed content) as (Ha & Hb & Hc).
  rewrite E in *. split; [|split].
  - apply Forall_forall. intros l Hin. apply Ha, in_or_app. now left.
  - destruct rest as [|r rest'].
    + now rewrite app_nil_r in Hb.
    + rewrite removelast_app in Hb by discriminate.
      apply Forall_app in Hb. now apply Forall_removelast.
  - intros H. apply Hc, Forall_app in H. tauto.
Qed.

(** What the reverse reader has handed over when it stops: the last lines
    of the file, the last one first. *)
Lemma handed_reverse (content : list ascii) (seen rest : list strbuf) :
  rev (lines_of content) = seen ++ rest ->
  Forall (line_handed content) seen /\
  Forall one_line (tl seen) /\
  (content = [] \/ lf_terminated content -> Forall one_line seen).
Proof.
  intros E. destruct (lines_of_handed content) as (Ha & Hb & Hc).
  assert (E' : lines_of content = rev rest ++ rev seen).
  { rewrite <- rev_app_distr, <- E. now rewrite rev_involutive. }
  rewrite E' in *. split; [|split].
  - apply Forall_forall. intros l Hin. apply Ha, in_or_app. right.
    now apply in_rev in Hin.
  - destruct seen as [|x s]; [constructor|]. cbn [tl].
    cbn [rev] in Hb. rewrite app_assoc, removelast_last in Hb.
    apply Forall_app in Hb. destruct Hb as [_ Hb].
    apply Forall_rev in Hb. now rewrite rev_involutive in Hb.
  - intros H. apply Hc, Forall_app in H. destruct H as [_ H].
    apply Forall_rev in H. now rewrite rev_involutive in H.
Qed.

(** A recording callback is called on the first lines of the list it is
    fed, up to the one on which it returns non-zero. *)
Lemma feed_traced_prefix (D : Type) (parse : strbuf -> D -> Z * D)
    (ls : list strbuf) :
  forall d seen0,
    exists taken rest,
      ls = taken ++ rest /\
      snd (snd (feed (traced parse) ls (d, seen0))) = seen0 ++ taken.
Proof.
  induction ls as [|l ls IH]; intros d seen0.
  - exists [], []. split; [reflexivity|]. simpl. now rewrite app_nil_r.
  - cbn [feed]. unfold traced at 1. cbn [fst snd].
    destruct (parse l d) as [ret d'].
    destruct (ret =? 0)%Z.
    + destruct (IH d' (seen0 ++ [l])) as (taken & rest & -> & Hs).
      exists (l :: taken), rest. split; [reflexivity|].
      rewrite Hs, <- app_assoc. reflexivity.
    + exists [l], ls. split; reflexivity.
Qed.

Lemma forward_traced_prefix (D : Type) (parse : strbuf -> D -> Z * D)
    (content : list ascii) (d : D) :
  exists ret d' seen rest,
    forward_loop (traced parse) (S (length content)) content 0%Z (d, [])
    = Some (ret, (d', seen)) /\
    lines_of content = seen ++ rest.
Proof.
  rewrite forward_loop_spec by lia. cbn [Z.eqb].
  destruct (feed_traced_prefix D parse (lines_of content) d [])
    as (taken & rest & E & Hs).
  destruct (feed (traced parse) (lines_of content) (d, []))
    as [ret [d' seen]].
  cbn [snd app] in Hs. subst seen.
  exists ret, d', taken, rest. split; [reflexivity | exact E].
Qed.

Lemma reverse_traced_prefix (BUFSIZ : nat) (D : Type)
    (parse : strbuf -> D -> Z * D) (content : list ascii) (d : D) :
  2 <= BUFSIZ ->
  exists out d' seen rest,
    reverse_scan BUFSIZ (traced parse) content (d, [])
    = Some (out, (d', seen)) /\
    rev (lines_of content) = seen ++ rest.
Proof.
  intros HB. destruct (starts_with_lf content) eqn:Hhd.
  - destruct content as [|c f]; [discriminate|]. cbn [starts_with_lf] in Hhd.
    assert (Hc : c = LF) by (now apply Ascii.eqb_eq). subst c.
    destruct f as [|c' f'].
    + rewrite reverse_scan_spec by assumption.
      exists (Returned 0%Z), d, [], (rev (lines_of [LF])).
      split; reflexivity.
    + rewrite reverse_scan_leading_lf by (assumption || discriminate).
      destruct (feed_traced_prefix D parse (rev (lines_of (c' :: f'))) d [])
        as (taken & rest & E & Hs).
      destruct (feed (traced parse) (rev (lines_of (c' :: f'))) (d, []))
        as [ret [d' seen]].
      cbn [snd app] in Hs. subst seen.
      exists (fst (bug_unless_stopped (ret, (d', taken)))), d', taken,
        (rest ++ [[LF]]).
      split.
      * unfold bug_unless_stopped. cbn [fst snd].
        now destruct (ret =? 0)%Z.
      * change (lines_of (LF :: c' :: f'))
          with ([LF] :: lines_of (c' :: f')).
        cbn [rev]. rewrite E. now rewrite app_assoc.
  - rewrite reverse_scan_spec by assumption.
    rewrite reverse_spec_lines by assumption.
    destruct (feed_traced_prefix D parse (rev (lines_of content)) d [])
      as (taken & rest & E & Hs).
    destruct (feed (traced parse) (rev (lines_of content)) (d, []))
      as [ret [d' seen]].
    cbn [snd app] in Hs. subst seen.
    exists (Returned ret), d', taken, rest. split; [reflexivity | exact E].
Qed.

(** A callback that never stops the scan gets the last line of the file
    first from the reverse reader. *)
Lemma reverse_record_head (BUFSIZ : nat) (content : list ascii) :
  2 <= BUFSIZ -> content <> [] -> content <> [LF] ->
  exists out rs,
    reverse_scan BUFSIZ record_line content []
    = Some (out, last (lines_of content) [] :: rs).
Proof.
  intros HB Hne Hlf. destruct (starts_with_lf content) eqn:Hhd.
  - destruct content as [|c f]; [discriminate|]. cbn [starts_with_lf] in Hhd.
    assert (Hc : c = LF) by (now apply Ascii.eqb_eq). subst c.
    assert (Hf : f <> []) by (intros ->; now apply Hlf).
    rewrite reverse_scan_leading_lf by assumption.
    rewrite feed_record_line. cbn [app].
    pose proof (lines_of_nonempty f Hf) as Hl.
    change (lines_of (LF :: f)) with ([LF] :: lines_of f).
    rewrite (rev_lines_head (lines_of f) Hl).
    exists BUG_leftover, (rev (removelast (lines_of f))).
    unfold bug_unless_stopped. cbn [fst snd Z.eqb]. do 3 f_equal.
    destruct (lines_of f); [congruence | reflexivity].
  - rewrite reverse_scan_spec by assumption.
    rewrite reverse_spec_lines by assumption.
    rewrite feed_record_line. cbn [app].
    rewrite (rev_lines_head _ (lines_of_nonempty content Hne)).
    exists (Returned 0%Z), (rev (removelast (lines_of content))).
    reflexivity.
Qed.

(** ** Logs built by bkl_append *)

Lemma byte_to_hex_no_lf (b : ascii) : no_lf (byte_to_hex b).
Proof.
  destruct b as [[] [] [] [] [] [] [] []]; repeat constructor.
Qed.

Lemma oid_to_hex_no_lf (o : object_id) : no_lf (oid_to_hex o).
Proof.
  induction o as [|b o IH]; [constructor|].
  unfold oid_to_hex in *.
  change (flat_map byte_to_hex (b :: o))
    with (byte_to_hex b ++ flat_map byte_to_hex o).
  apply Forall_app; split; [apply byte_to_hex_no_lf | exact IH].
Qed.

Lemma bkl_append_app (ci output p : list ascii) (from to : object_id) :
  bkl_append ci output p from to = output ++ bkl_append ci [] p from to.
Proof.
  unfold bkl_append. destruct (oideq from to); [now rewrite app_nil_r|].
  reflexivity.
Qed.

Lemma append_events_concat (es : list log_event) :
  forall out, fold_left append_event es out = out ++ concat (event_lines es).
Proof.
  induction es as [|e es IH]; intros out; simpl.
  - now rewrite app_nil_r.
  - rewrite IH. unfold append_event at 1. rewrite bkl_append_app.
    unfold append_event, bkl_append.
    destruct (oideq (ev_from e) (ev_to e)); simpl.
    + now rewrite app_nil_r.
    + now rewrite <- !app_assoc.
Qed.

Lemma event_lines_encoded (es : list log_event) :
  Forall (fun e => no_lf (ev_committer e) /\ no_lf (ev_path e)) es ->
  Forall encoded_line (event_lines es).
Proof.
  induction 1 as [|e es [Hc Hp] _ IH]; [constructor|].
  simpl. destruct (oideq (ev_from e) (ev_to e)) eqn:E; [exact IH|].
  constructor; [|exact IH].
  unfold append_event, bkl_append. rewrite E.
  exists (oid_to_hex (ev_from e) ++ [SP] ++ oid_to_hex (ev_to e) ++ [SP]
          ++ ev_committer e ++ [TAB] ++ ev_path e).
  repeat split.
  - simpl. repeat (rewrite <- app_assoc; simpl). reflexivity.
  - unfold no_lf in *.
    repeat (apply Forall_app; split);
      try assumption; try apply oid_to_hex_no_lf; repeat constructor.
  - intros H. apply (f_equal (@length ascii)) in H.
    rewrite !length_app in H. simpl in H. lia.
Qed.

Lemma lines_of_concat (ls : list strbuf) :
  Forall encoded_line ls -> lines_of (concat ls) = ls.
Proof.
  induction 1 as [|l ls (body & -> & Hno & _) _ IH]; [reflexivity|].
  simpl concat. rewrite lines_of_app_lf, IH.
  rewrite lines_of_single; [reflexivity|].
  split; [now destruct body|]. now rewrite removelast_last.
Qed.

Lemma starts_with_lf_concat (ls : list strbuf) :
  Forall encoded_line ls -> starts_with_lf (concat ls) = false.
Proof.
  intros [|l ls' (body & -> & Hno & Hne) _]; [reflexivity|].
  destruct body as [|c body]; [congruence|].
  inversion Hno; subst. assumption.
Qed.

(** ** The claims about the readers *)

Lemma event_lines_app (es1 es2 : list log_event) :
  event_lines (es1 ++ es2) = event_lines es1 ++ event_lines es2.
Proof. unfold event_lines. apply flat_map_app. Qed.

Lemma write_batches_content (batches : list (list log_event)) :
  forall file,
    fold_left write_batch batches file =
    match batches with
    | [] => file
    | _ :: _ =>
        Some (content_of file ++ concat (event_lines (concat batches)))
    end.
Proof.
  induction batches as [|b bs IH]; intros file; [reflexivity|].
  cbn [fold_left]. rewrite IH.
  assert (Hb : write_batch file b
               = Some (content_of file ++ concat (event_lines b))).
  { unfold write_batch, bkl_write, bkl_write_unlocked, append_events.
    rewrite append_events_concat. now destruct file. }
  rewrite Hb. destruct bs as [|b' bs'].
  - cbn [concat]. now rewrite app_nil_r.
  - cbn [content_of]. change (concat (b :: b' :: bs'))
      with (b ++ concat (b' :: bs')).
    now rewrite event_lines_app, concat_app, app_assoc.
Qed.

(** C1. A log obtained by appending the encoded entries e1..en in that
    order, in any number of calls of [bkl_write], is read back by the
    forward reader as exactly the lines of e1..en in that order and by the
    reverse reader as exactly the lines of en..e1; the forward list
    reversed is the reverse list.  The block size of the reverse reader is
    the constant of <stdio.h>, taken to be at least two bytes (ISO C
    requires at least 256). *)
Theorem append_then_iterate (BUFSIZ : nat) (batches : list (list log_event))
    (fs : filesystem) (path : string) :
  2 <= BUFSIZ ->
  Forall (fun e => no_lf (ev_committer e) /\ no_lf (ev_path e))
         (concat batches) ->
  fs path = fopen_of (write_batches batches) ->
  bkl_parse_file record_line fs path []
  = Some (0%Z, event_lines (concat batches)) /\
  bkl_parse_file_reverse BUFSIZ record_line fs path []
  = Some (Returned 0%Z, rev (event_lines (concat batches))) /\
  option_map (fun r => rev (snd r)) (bkl_parse_file record_line fs path []) =
    option_map snd (bkl_parse_file_reverse BUFSIZ record_line fs path []).
Proof.
  intros HB Hes Hfs.
  pose proof (event_lines_encoded _ Hes) as Henc.
  unfold write_batches in Hfs. rewrite write_batches_content in Hfs.
  assert (Hfwd : bkl_parse_file record_line fs path []
                 = Some (0%Z, event_lines (concat batches))).
  { unfold bkl_parse_file. rewrite Hfs.
    destruct batches as [|b bs]; [reflexivity|]. cbn [fopen_of content_of app].
    rewrite forward_loop_spec by lia. simpl.
    rewrite feed_record_line, lines_of_concat by assumption.
    reflexivity. }
  assert (Hrev : bkl_parse_file_reverse BUFSIZ record_line fs path []
                 = Some (Returned 0%Z, rev (event_lines (concat batches)))).
  { unfold bkl_parse_file_reverse. rewrite Hfs.
    destruct batches as [|b bs]; [reflexivity|]. cbn [fopen_of content_of app].
    rewrite reverse_scan_spec by assumption.
    rewrite reverse_spec_lines by (now apply starts_with_lf_concat).
    rewrite feed_record_line, lines_of_concat by assumption.
    reflexivity. }
  rewrite Hfwd, Hrev. repeat split.
Qed.


(** C4.  The leftover branch is reached: on a file of two line feeds the
    reverse reader calls the callback once and then runs into
    [BUG("reverse reflog parser had leftover data")]. *)
Theorem leftover_bug_reached :
  bkl_parse_file_reverse glibc_BUFSIZ record_line
    (fun _ => Fopen_stream [LF; LF]) "log"%string [] =
  Some (BUG_leftover, [[LF]]).
Proof. vm_compute. reflexivity. Qed.

(** The same at every block size from two bytes on, and for a leading
    empty line in front of a record. *)
Lemma leftover_bug_any_block_size (BUFSIZ : nat) :
  2 <= BUFSIZ ->
  reverse_scan BUFSIZ record_line [LF; LF] [] = Some (BUG_leftover, [[LF]]) /\
  reverse_scan BUFSIZ record_line (LF :: bytes "abc" ++ [LF]) [] =
    Some (BUG_leftover, [bytes "abc" ++ [LF]]).
Proof.
  intros HB. rewrite !reverse_scan_spec by assumption. split; reflexivity.
Qed.

(** C7.  When the log file does not exist, both readers return 0 and the
    callback is not called. *)
Theorem missing_log_is_empty (BUFSIZ : nat) (D : Type)
    (parse : strbuf -> D -> Z * D) (fs : filesystem) (path : string)
    (e : errno_t) (d : D) :
  fs path = Fopen_null e -> missing_file_errno e = true ->
  bkl_parse_file (traced parse) fs path (d, []) = Some (0%Z, (d, [])) /\
  bkl_parse_file_reverse BUFSIZ (traced parse) fs path (d, []) =
    Some (Returned 0%Z, (d, [])).
Proof.
  intros Hfs He. unfold bkl_parse_file, bkl_parse_file_reverse.
  rewrite Hfs, He. split; reflexivity.
Qed.

(** C9 (as amended).  For every file content, every line the forward
    reader hands to the callback is one LF-terminated line (a body free of
    LF followed by its LF), and so is every line the reverse reader hands
    to it, for every block size from two bytes on, with one exception: the
    last line of a file that does not end with LF is handed over as it is,
    the non-empty LF-free rest after the last LF.  It can only be the last
    line the forward reader hands over and the first the reverse reader
    hands over; a callback that never stops the scan gets it from both.
    On a file that is empty or ends with LF every line handed over is one
    LF-terminated line.  The lines handed over are the first lines of the
    file for the forward reader and the last ones, last first, for the
    reverse reader. *)
Theorem lines_keep_their_lf (BUFSIZ : nat) (D : Type)
    (parse : strbuf -> D -> Z * D) (fs : filesystem) (path : string)
    (content : list ascii) (d : D) :
  2 <= BUFSIZ ->
  fs path = Fopen_stream content ->
  (exists ret d' seen,
      bkl_parse_file (traced parse) fs path (d, []) = Some (ret, (d', seen))
      /\ (exists rest, lines_of content = seen ++ rest)
      /\ Forall (line_handed content) seen
      /\ Forall one_line (removelast seen)
      /\ (content = [] \/ lf_terminated content -> Forall one_line seen)) /\
  (exists out d' seen,
      bkl_parse_file_reverse BUFSIZ (traced parse) fs path (d, [])
      = Some (out, (d', seen))
      /\ (exists rest, rev (lines_of content) = seen ++ rest)
      /\ Forall (line_handed content) seen
      /\ Forall one_line (tl seen)
      /\ (content = [] \/ lf_terminated content -> Forall one_line seen)) /\
  (content <> [] -> ~ lf_terminated content ->
   exists u ls out rs,
     unterminated u /\
     (exists pre, content = pre ++ u /\ (pre = [] \/ lf_terminated pre)) /\
     Forall one_line ls /\
     bkl_parse_file record_line fs path [] = Some (0%Z, ls ++ [u]) /\
     bkl_parse_file_reverse BUFSIZ record_line fs path []
     = Some (out, u :: rs)).
Proof.
  intros HB Hfs. unfold bkl_parse_file, bkl_parse_file_reverse.
  rewrite Hfs. split; [|split].
  - destruct (forward_traced_prefix D parse content d)
      as (ret & d' & seen & rest & Hrun & E).
    exists ret, d', seen. split; [exact Hrun|].
    split; [now exists rest|]. now apply (handed_forward content seen rest).
  - destruct (reverse_traced_prefix BUFSIZ D parse content d HB)
      as (out & d' & seen & rest & Hrun & E).
    exists out, d', seen. split; [exact Hrun|].
    split; [now exists rest|]. now apply (handed_reverse content seen rest).
  - intros Hne Hno.
    destruct (lines_of_shape content) as [-> | (init & lst & El & Hi & Hl)];
      [congruence|].
    destruct Hl as [[_ H] | [Hu _]]; [contradiction|].
    assert (Hlf : content <> [LF]).
    { intros ->. apply Hno. now exists []. }
    destruct (reverse_record_head BUFSIZ content HB Hne Hlf)
      as (out & rs & Hrev).
    rewrite El, last_last in Hrev.
    exists lst, init, out, rs. split; [exact Hu|]. split; [|split; [exact Hi|]].
    + exists (concat init). split; [|now apply concat_one_lines].
      rewrite <- (concat_lines_of content) at 1. rewrite El, concat_app.
      simpl. now rewrite app_nil_r.
    + split; [|exact Hrev].
      rewrite forward_loop_spec by lia. cbn [Z.eqb].
      now rewrite feed_record_line, El.
Qed.

(** ** Buffers and C strings *)

Lemma byte_at_skipn (sb : list ascii) (p k : nat) :
  byte_at sb (p + k) = byte_at (skipn p sb) k.
Proof. unfold byte_at. now rewrite nth_skipn. Qed.

Lemma byte_at_skipn_0 (sb : list ascii) (p : nat) :
  byte_at sb p = byte_at (skipn p sb) 0.
Proof. rewrite <- byte_at_skipn. now rewrite Nat.add_0_r. Qed.

Lemma skipn_plus (sb : list ascii) (p k : nat) :
  skipn (p + k) sb = skipn k (skipn p sb).
Proof. rewrite skipn_skipn. f_equal. lia. Qed.

Lemma skipn_step (sb a rest : list ascii) (p : nat) :
  skipn p sb = a ++ rest -> skipn (p + length a) sb = rest.
Proof.
  intros H. rewrite skipn_plus, H.
  rewrite skipn_app, Nat.sub_diag, skipn_all. reflexivity.
Qed.

Lemma skipn_length_le (sb t : list ascii) (p : nat) :
  skipn p sb = t -> t <> [] -> p + length t = length sb.
Proof.
  intros H Hne. subst t. rewrite length_skipn.
  destruct (Nat.le_gt_cases (length sb) p) as [Hle|Hlt]; [|lia].
  exfalso. apply Hne. now apply skipn_all2.
Qed.

Lemma length_set_byte (sb : list ascii) (i : nat) (c : ascii) :
  length (set_byte sb i c) = length sb.
Proof.
  revert i; induction sb as [|x sb IH]; intros [|i]; simpl; auto.
Qed.

Lemma skipn_set_byte_le (sb : list ascii) (i j : nat) (c : ascii) :
  j <= i -> skipn j (set_byte sb i c) = set_byte (skipn j sb) (i - j) c.
Proof.
  revert sb i; induction j as [|j IH]; intros sb i Hle.
  - now rewrite Nat.sub_0_r.
  - destruct sb as [|x sb]; [now destruct i|].
    destruct i as [|i]; [lia|]. simpl. apply IH. lia.
Qed.

Lemma skipn_set_byte_gt (sb : list ascii) (i j : nat) (c : ascii) :
  i < j -> skipn j (set_byte sb i c) = skipn j sb.
Proof.
  revert sb i; induction j as [|j IH]; intros sb i Hlt; [lia|].
  destruct sb as [|x sb]; [now destruct i|].
  destruct i as [|i]; [reflexivity|]. simpl. apply IH. lia.
Qed.

Lemma byte_at_set_byte_same (sb : list ascii) (i : nat) (c : ascii) :
  i < length sb -> byte_at (set_byte sb i c) i = c.
Proof.
  unfold byte_at. revert i; induction sb as [|x sb IH]; intros [|i] H;
    simpl in *; try lia; [reflexivity|]. apply IH. lia.
Qed.

Lemma byte_at_set_byte_other (sb : list ascii) (i j : nat) (c : ascii) :
  i <> j -> byte_at (set_byte sb i c) j = byte_at sb j.
Proof.
  unfold byte_at. revert i j; induction sb as [|x sb IH]; intros [|i] [|j] H;
    simpl; try reflexivity; try lia. apply IH. lia.
Qed.

Lemma set_byte_app_len (a b : list ascii) (x c : ascii) :
  set_byte (a ++ x :: b) (length a) c = a ++ c :: b.
Proof. induction a as [|y a IH]; simpl; [reflexivity | now rewrite IH]. Qed.

Lemma cstr_app_nul (a b : list ascii) :
  no_nul a -> cstr (a ++ NUL :: b) = a.
Proof.
  induction 1 as [|x a Hx _ IH]; [reflexivity|].
  simpl. now rewrite Hx, IH.
Qed.

Lemma cstr_set_byte_nul (l : list ascii) (k : nat) :
  cstr (set_byte l k NUL) = cstr (firstn k l).
Proof.
  revert k; induction l as [|x l IH]; intros [|k]; simpl; try reflexivity.
  now rewrite IH.
Qed.

(** ** Identifiers in hex *)

Lemma hex_byte_roundtrip (b : ascii) (l : list ascii) (n : nat) :
  hex_to_bytes (byte_to_hex b ++ l) (S n) =
  option_map (cons b) (hex_to_bytes l n).
Proof. destruct b as [[] [] [] [] [] [] [] []]; reflexivity. Qed.

Lemma hex_to_bytes_oid (o : object_id) (rest : list ascii) :
  hex_to_bytes (oid_to_hex o ++ rest) (length o) = Some o.
Proof.
  induction o as [|b o IH]; [reflexivity|].
  unfold oid_to_hex in *.
  change (flat_map byte_to_hex (b :: o))
    with (byte_to_hex b ++ flat_map byte_to_hex o).
  rewrite <- app_assoc. change (length (b :: o)) with (S (length o)).
  now rewrite hex_byte_roundtrip, IH.
Qed.

Lemma length_oid_to_hex (o : object_id) :
  valid_oid o -> length (oid_to_hex o) = GIT_SHA1_HEXSZ.
Proof.
  unfold valid_oid, GIT_SHA1_RAWSZ, GIT_SHA1_HEXSZ. intros H.
  assert (G : length (oid_to_hex o) = 2 * length o).
  { clear H. induction o as [|b o IH]; [reflexivity|].
    unfold oid_to_hex in *. simpl. rewrite IH. lia. }
  lia.
Qed.

Lemma parse_oid_hex_at (sb : list ascii) (p : nat) (o : object_id)
    (rest : list ascii) :
  skipn p sb = oid_to_hex o ++ rest -> valid_oid o ->
  parse_oid_hex sb p = Some (o, p + GIT_SHA1_HEXSZ).
Proof.
  intros Hs Hv. unfold parse_oid_hex. rewrite Hs, <- Hv.
  now rewrite hex_to_bytes_oid.
Qed.

Lemma bytes_eqb_eq (a b : list ascii) : bytes_eqb a b = true <-> a = b.
Proof.
  revert b; induction a as [|x a IH]; intros [|y b]; simpl;
    try (split; [discriminate | congruence]); [tauto|].
  rewrite andb_true_iff, Ascii.eqb_eq, IH.
  split; [intros [-> ->]; reflexivity | intros H; inversion H; auto].
Qed.

(** ** Decimal numerals *)

Lemma isdigit_range (c : ascii) :
  isdigit c = true <-> (48 <= N_of_ascii c <= 57)%N.
Proof.
  unfold isdigit. rewrite andb_true_iff, !N.leb_le. tauto.
Qed.

Lemma isdigit_not_space (c : ascii) : isdigit c = true -> isspace c = false.
Proof.
  intros H. apply isdigit_range in H. unfold isspace.
  apply orb_false_iff; split.
  - apply N.eqb_neq. lia.
  - apply andb_false_iff. right. apply N.leb_gt. lia.
Qed.

Lemma isdigit_not_sign (c : ascii) :
  isdigit c = true ->
  Ascii.eqb c "-" || Ascii.eqb c "+" = false.
Proof.
  intros H. apply orb_false_iff.
  split; apply Ascii.eqb_neq; intros ->; discriminate H.
Qed.

Lemma digits_loop_app (ds rest : list ascii) :
  all_digits ds ->
  forall acc n,
    digits_loop (ds ++ rest) acc n =
    digits_loop rest
      (fold_left (fun a c => (10 * a + digit_value c)%Z) ds acc)
      (n + length ds).
Proof.
  induction 1 as [|c ds Hc _ IH]; intros acc n; simpl.
  - now rewrite Nat.add_0_r.
  - rewrite Hc, IH. f_equal. lia.
Qed.

Lemma digits_loop_stop (rest : list ascii) (acc : Z) (n : nat) :
  isdigit (byte_at rest 0) = false -> digits_loop rest acc n = (acc, n).
Proof.
  destruct rest as [|c rest]; [reflexivity|].
  unfold byte_at; simpl. now intros ->.
Qed.

(** [strtoumax] and [strtol] only look at the string from [p] on. *)
Lemma parse_timestamp_skipn (sb : list ascii) (p : nat) :
  parse_timestamp sb p =
  (fst (parse_timestamp (skipn p sb) 0),
   p + snd (parse_timestamp (skipn p sb) 0)).
Proof.
  unfold parse_timestamp. cbn [skipn Nat.add].
  set (k := count_space (skipn p sb)).
  rewrite (byte_at_skipn sb p k).
  set (sg := Ascii.eqb (byte_at (skipn p sb) k) "-"
             || Ascii.eqb (byte_at (skipn p sb) k) "+").
  assert (Hq : skipn (if sg then p + k + 1 else p + k) sb
               = skipn (if sg then k + 1 else k) (skipn p sb)).
  { destruct sg; rewrite <- ?Nat.add_assoc; apply skipn_plus. }
  rewrite Hq.
  destruct (digits_loop _ 0%Z 0) as [v n].
  destruct (n =? 0); [cbn [fst snd]; f_equal; lia|].
  destruct (UINTMAX_MAX <? v)%Z;
    [|destruct (Ascii.eqb (byte_at (skipn p sb) k) "-")];
    cbn [fst snd]; f_equal; destruct sg; lia.
Qed.

Lemma strtol_skipn (sb : list ascii) (p : nat) :
  strtol sb p = strtol (skipn p sb) 0.
Proof.
  unfold strtol. cbn [skipn Nat.add].
  set (k := count_space (skipn p sb)).
  rewrite (byte_at_skipn sb p k).
  set (sg := Ascii.eqb (byte_at (skipn p sb) k) "-"
             || Ascii.eqb (byte_at (skipn p sb) k) "+").
  assert (Hq : skipn (if sg then p + k + 1 else p + k) sb
               = skipn (if sg then k + 1 else k) (skipn p sb)).
  { destruct sg; rewrite <- ?Nat.add_assoc; apply skipn_plus. }
  rewrite Hq. reflexivity.
Qed.

(** A run of digits, not followed by a digit, is read as its value,
    saturated at [UINTMAX_MAX]. *)
Lemma parse_timestamp_digits (tsd rest : list ascii) :
  all_digits tsd -> tsd <> [] -> isdigit (byte_at rest 0) = false ->
  parse_timestamp (tsd ++ rest) 0 =
  ((if (UINTMAX_MAX <? digits_value tsd)%Z then UINTMAX_MAX
    else digits_value tsd), length tsd).
Proof.
  intros Hd Hne Hrest.
  destruct tsd as [|c tsd]; [congruence|].
  inversion Hd as [|? ? Hc Hd']; subst.
  unfold parse_timestamp. cbn [skipn app count_space Nat.add].
  rewrite (isdigit_not_space c Hc). cbn [byte_at nth Nat.add].
  pose proof (isdigit_not_sign c Hc) as Hs.
  apply orb_false_iff in Hs as [Hm Hp]. rewrite Hm, Hp. cbn [orb skipn].
  change (c :: tsd ++ rest) with ((c :: tsd) ++ rest).
  rewrite digits_loop_app by assumption.
  rewrite digits_loop_stop by assumption.
  fold (digits_value (c :: tsd)). cbn [length Nat.add Nat.eqb].
  destruct (UINTMAX_MAX <? digits_value (c :: tsd))%Z; reflexivity.
Qed.

Lemma digit_char_spec (k : Z) :
  (0 <= k <= 9)%Z ->
  isdigit (digit_char k) = true /\ digit_value (digit_char k) = k.
Proof.
  intros H.
  assert (C : (k = 0 \/ k = 1 \/ k = 2 \/ k = 3 \/ k = 4 \/ k = 5 \/ k = 6
               \/ k = 7 \/ k = 8 \/ k = 9)%Z) by lia.
  repeat (destruct C as [-> | C]; [split; reflexivity|]).
  subst; split; reflexivity.
Qed.

Lemma digits_value_snoc (l : list ascii) (c : ascii) :
  digits_value (l ++ [c]) = (10 * digits_value l + digit_value c)%Z.
Proof. unfold digits_value. now rewrite fold_left_app. Qed.

Lemma decimal_digits_spec (fuel : nat) :
  forall n,
    (0 <= n < 2 ^ Z.of_nat fuel)%Z ->
    all_digits (decimal_digits fuel n) /\
    digits_value (decimal_digits fuel n) = n.
Proof.
  induction fuel as [|fuel IH]; intros n Hn.
  - simpl in *. split; [constructor | unfold digits_value; simpl; lia].
  - cbn [decimal_digits].
    assert (Hm : (0 <= n mod 10 <= 9)%Z)
      by (pose proof (Z.mod_pos_bound n 10); lia).
    destruct (digit_char_spec _ Hm) as [Hd Hv].
    assert (Hq : (0 <= n / 10 < 2 ^ Z.of_nat fuel)%Z).
    { rewrite Nat2Z.inj_succ, Z.pow_succ_r in Hn by lia.
      split; [apply Z.div_pos; lia|].
      apply Z.div_lt_upper_bound; lia. }
    destruct (n / 10 =? 0)%Z eqn:E.
    + apply Z.eqb_eq in E. split; [repeat constructor; exact Hd|].
      rewrite digits_value_snoc, Hv. unfold digits_value at 1. simpl.
      pose proof (Z.div_mod n 10). lia.
    + destruct (IH _ Hq) as [Ha Hval]. split.
      * apply Forall_app; split; [exact Ha | repeat constructor; exact Hd].
      * rewrite digits_value_snoc, Hv, Hval.
        pose proof (Z.div_mod n 10). lia.
Qed.

Lemma decimal_spec (n : Z) :
  (0 < n)%Z ->
  all_digits (decimal n) /\ digits_value (decimal n) = n /\ decimal n <> [].
Proof.
  intros Hn. unfold decimal.
  destruct (decimal_digits_spec (S (Z.to_nat (Z.log2 n))) n) as [Ha Hv].
  { rewrite Nat2Z.inj_succ, Z2Nat.id by apply Z.log2_nonneg.
    pose proof (Z.log2_spec n Hn). lia. }
  repeat split; [exact Ha | exact Hv |].
  cbn [decimal_digits]. intros H.
  apply (f_equal (@length ascii)) in H. rewrite length_app in H.
  simpl in H. lia.
Qed.

Lemma digit_value_range (c : ascii) :
  isdigit c = true -> (0 <= digit_value c <= 9)%Z.
Proof. intros H. apply isdigit_range in H. unfold digit_value. lia. Qed.

(** A sign and four digits, not followed by a digit. *)
Lemma strtol_sign_4_digits (sg d1 d2 d3 d4 : ascii) (rest : list ascii) :
  sg = "+"%char \/ sg = "-"%char ->
  all_digits [d1; d2; d3; d4] ->
  isdigit (byte_at rest 0) = false ->
  strtol (sg :: d1 :: d2 :: d3 :: d4 :: rest) 0 =
  (if Ascii.eqb sg "-" then - digits_value [d1; d2; d3; d4]
   else digits_value [d1; d2; d3; d4])%Z.
Proof.
  intros Hsg Hd Hrest.
  assert (Hv : (0 <= digits_value [d1; d2; d3; d4] <= 9999)%Z).
  { inversion Hd as [|? ? H1 Hd1]; subst.
    inversion Hd1 as [|? ? H2 Hd2]; subst.
    inversion Hd2 as [|? ? H3 Hd3]; subst.
    inversion Hd3 as [|? ? H4 _]; subst.
    apply digit_value_range in H1, H2, H3, H4.
    unfold digits_value; cbn [fold_left]. lia. }
  unfold strtol.
  assert (Hsp : count_space (sg :: d1 :: d2 :: d3 :: d4 :: rest) = 0)
    by (destruct Hsg; subst; reflexivity).
  cbn [skipn]. rewrite Hsp. cbn [Nat.add byte_at nth].
  assert (Hor : Ascii.eqb sg "-" || Ascii.eqb sg "+" = true)
    by (destruct Hsg; subst; reflexivity).
  rewrite Hor. cbn [skipn].
  change (d1 :: d2 :: d3 :: d4 :: rest) with ([d1; d2; d3; d4] ++ rest).
  rewrite digits_loop_app by assumption.
  rewrite digits_loop_stop by assumption.
  fold (digits_value [d1; d2; d3; d4]). cbn [length Nat.add Nat.eqb].
  unfold LONG_MIN, LONG_MAX.
  destruct (Ascii.eqb sg "-").
  - rewrite (proj2 (Z.ltb_ge _ _)) by lia. reflexivity.
  - rewrite (proj2 (Z.ltb_ge _ _)) by lia. reflexivity.
Qed.

Lemma int_of_long_small (v : Z) :
  (-2147483648 <= v < 2147483648)%Z -> int_of_long v = v.
Proof. intros H. unfold int_of_long. rewrite Z.mod_small; lia. Qed.

Lemma format_tz_spec (tz : Z) :
  (-9999 <= tz <= 9999)%Z ->
  exists sg d1 d2 d3 d4,
    format_tz tz = [sg; d1; d2; d3; d4] /\
    (sg = "+"%char \/ sg = "-"%char) /\
    all_digits [d1; d2; d3; d4] /\
    (if Ascii.eqb sg "-" then - digits_value [d1; d2; d3; d4]
     else digits_value [d1; d2; d3; d4])%Z = tz.
Proof.
  intros H. unfold format_tz.
  set (a := Z.abs tz).
  assert (Ha : (0 <= a <= 9999)%Z) by (unfold a; lia).
  assert (B : forall k, (0 <= k mod 10 <= 9)%Z)
    by (intros k; pose proof (Z.mod_pos_bound k 10); lia).
  destruct (digit_char_spec _ (B (a / 1000)%Z)) as [I1 V1].
  destruct (digit_char_spec _ (B (a / 100)%Z)) as [I2 V2].
  destruct (digit_char_spec _ (B (a / 10)%Z)) as [I3 V3].
  destruct (digit_char_spec _ (B a)) as [I4 V4].
  do 5 eexists. split; [reflexivity|].
  split; [destruct (tz <? 0)%Z; auto|].
  split; [repeat constructor; assumption|].
  unfold digits_value. cbn [fold_left]. rewrite V1, V2, V3, V4.
  assert (Hsum : (10 * (10 * (10 * (10 * 0 + a / 1000 mod 10)
                                + a / 100 mod 10) + a / 10 mod 10)
                  + a mod 10 = a)%Z).
  { clear - Ha. Z.div_mod_to_equations. lia. }
  rewrite Hsum.
  destruct (tz <? 0)%Z eqn:E; cbn [Ascii.eqb Bool.eqb];
    [apply Z.ltb_lt in E | apply Z.ltb_ge in E]; unfold a; lia.
Qed.

Lemma strchr_offset_at (who rest : list ascii) (c : ascii) :
  Forall (fun x => Ascii.eqb x c = false /\ is_nul x = false) who ->
  strchr_offset (who ++ c :: rest) c = Some (length who).
Proof.
  induction 1 as [|x who [Hx Hn] _ IH]; simpl.
  - now rewrite Ascii.eqb_refl.
  - now rewrite Hx, Hn, IH.
Qed.

Lemma strchr_at (sb who rest : list ascii) (p : nat) (c : ascii) :
  skipn p sb = who ++ c :: rest ->
  Forall (fun x => Ascii.eqb x c = false /\ is_nul x = false) who ->
  strchr sb p c = Some (p + length who).
Proof.
  intros Hs Hw. unfold strchr. now rewrite Hs, strchr_offset_at.
Qed.

(** ** Decoding a line laid out by the grammar *)

Lemma plain_ident_who (name mail : list ascii) :
  plain name -> plain mail -> plain (ident_who name mail).
Proof.
  intros Hn Hm. unfold plain, ident_who.
  apply Forall_app; split; [exact Hn|].
  apply Forall_app; split; [repeat constructor | exact Hm].
Qed.

(** The strings behind the two pointers once the two NULs are written. *)
Lemma cstr_firstn_nul (a b : list ascii) (k : nat) :
  no_nul a -> length a < k -> cstr (firstn k (a ++ NUL :: b)) = a.
Proof.
  intros Ha Hk. rewrite firstn_app, firstn_all2 by lia.
  destruct (k - length a) as [|k'] eqn:E; [lia|].
  simpl firstn. now apply cstr_app_nul.
Qed.

Lemma cstring_email_after_decode (sb a rest : list ascii) (x : ascii)
    (p : nat) :
  skipn p sb = a ++ x :: rest -> rest <> [] -> no_nul a ->
  cstring_at (set_byte (set_byte sb (p + length a) NUL) (length sb - 1) NUL) p
  = a.
Proof.
  intros Hs Hrest Ha.
  assert (Hlen : p + length (a ++ x :: rest) = length sb)
    by (apply skipn_length_le; [exact Hs | now destruct a]).
  rewrite length_app in Hlen. simpl in Hlen.
  assert (0 < length rest) by (destruct rest; [congruence | simpl; lia]).
  unfold cstring_at.
  rewrite skipn_set_byte_le by lia.
  rewrite cstr_set_byte_nul.
  rewrite skipn_set_byte_le by lia.
  replace (p + length a - p) with (length a) by lia.
  rewrite Hs, set_byte_app_len.
  apply cstr_firstn_nul; [exact Ha | lia].
Qed.

Lemma cstring_path_after_decode (sb pth : list ascii) (e1 off : nat) :
  e1 < off -> skipn off sb = pth ++ [LF] -> no_nul pth ->
  cstring_at (set_byte (set_byte sb e1 NUL) (length sb - 1) NUL) off = pth.
Proof.
  intros He Hs Hp.
  assert (Hlen : off + length (pth ++ [LF]) = length sb)
    by (apply skipn_length_le; [exact Hs | now destruct pth]).
  rewrite length_app in Hlen. simpl in Hlen.
  unfold cstring_at.
  rewrite skipn_set_byte_le by lia.
  rewrite skipn_set_byte_gt by lia.
  replace (length sb - 1 - off) with (length pth) by lia.
  rewrite Hs, set_byte_app_len. now apply cstr_app_nul.
Qed.

Section DecodeLine.

Variables (old new : object_id) (name mail : list ascii) (stamp zone : Z).
Variable tail : list ascii.

Hypothesis Hold : valid_oid old.
Hypothesis Hnew : valid_oid new.
Hypothesis Hname : plain name.
Hypothesis Hmail : plain mail.
Hypothesis Hts : (0 < stamp <= UINTMAX_MAX)%Z.
Hypothesis Htz : (-9999 <= zone <= 9999)%Z.

Let line := line_with_tail (committer_info name mail stamp zone) tail old new.
Let who := ident_who name mail.
Let m := 82 + length who + 2 + length (decimal stamp).

(** The suffixes of the line at the places the decoder visits. *)
Lemma line_suffixes :
  exists sg d1 d2 d3 d4,
    format_tz zone = [sg; d1; d2; d3; d4] /\
    (sg = "+"%char \/ sg = "-"%char) /\
    all_digits [d1; d2; d3; d4] /\
    line = oid_to_hex old ++ SP :: oid_to_hex new ++ SP :: who
           ++ ">"%char :: SP :: decimal stamp
           ++ SP :: sg :: d1 :: d2 :: d3 :: d4 :: tail ++ [LF] /\
    skipn 40 line = SP :: oid_to_hex new ++ SP :: who
           ++ ">"%char :: SP :: decimal stamp
           ++ SP :: sg :: d1 :: d2 :: d3 :: d4 :: tail ++ [LF] /\
    skipn 41 line = oid_to_hex new ++ SP :: who
           ++ ">"%char :: SP :: decimal stamp
           ++ SP :: sg :: d1 :: d2 :: d3 :: d4 :: tail ++ [LF] /\
    skipn 81 line = SP :: who
           ++ ">"%char :: SP :: decimal stamp
           ++ SP :: sg :: d1 :: d2 :: d3 :: d4 :: tail ++ [LF] /\
    skipn 82 line = who
           ++ ">"%char :: SP :: decimal stamp
           ++ SP :: sg :: d1 :: d2 :: d3 :: d4 :: tail ++ [LF] /\
    skipn (82 + length who) line = ">"%char :: SP :: decimal stamp
           ++ SP :: sg :: d1 :: d2 :: d3 :: d4 :: tail ++ [LF] /\
    skipn (82 + length who + 2) line = decimal stamp
           ++ SP :: sg :: d1 :: d2 :: d3 :: d4 :: tail ++ [LF] /\
    skipn m line = SP :: sg :: d1 :: d2 :: d3 :: d4 :: tail ++ [LF] /\
    skipn (m + 1) line = sg :: d1 :: d2 :: d3 :: d4 :: tail ++ [LF] /\
    skipn (m + 6) line = tail ++ [LF].
Proof.
  destruct (format_tz_spec zone Htz)
    as (sg & d1 & d2 & d3 & d4 & Hfmt & Hsg & Hdig & _).
  exists sg, d1, d2, d3, d4.
  assert (Hline : line = oid_to_hex old ++ SP :: oid_to_hex new ++ SP :: who
           ++ ">"%char :: SP :: decimal stamp
           ++ SP :: sg :: d1 :: d2 :: d3 :: d4 :: tail ++ [LF]).
  { unfold line, line_with_tail, committer_info, who. rewrite Hfmt.
    repeat (rewrite <- app_assoc; cbn [app]). reflexivity. }
  assert (S40 : skipn 40 line = SP :: oid_to_hex new ++ SP :: who
           ++ ">"%char :: SP :: decimal stamp
           ++ SP :: sg :: d1 :: d2 :: d3 :: d4 :: tail ++ [LF]).
  { pose proof (skipn_step line (oid_to_hex old) _ 0 Hline) as S.
    rewrite length_oid_to_hex in S by assumption. exact S. }
  pose proof (skipn_step line [SP] _ 40 S40) as S41.
  change (40 + length [SP]) with 41 in S41.
  pose proof (skipn_step line (oid_to_hex new) _ 41 S41) as S81.
  rewrite length_oid_to_hex in S81 by assumption.
  change (41 + GIT_SHA1_HEXSZ) with 81 in S81.
  pose proof (skipn_step line [SP] _ 81 S81) as S82.
  change (81 + length [SP]) with 82 in S82.
  pose proof (skipn_step line who _ 82 S82) as Sgt.
  pose proof (skipn_step line [">"%char; SP] _ _ Sgt) as Sts.
  change (length [">"%char; SP]) with 2 in Sts.
  pose proof (skipn_step line (decimal stamp) _ _ Sts) as Sm.
  fold m in Sm.
  pose proof (skipn_step line [SP] _ _ Sm) as Stz.
  change (length [SP]) with 1 in Stz.
  pose proof (skipn_step line [SP; sg; d1; d2; d3; d4] _ _ Sm) as S6.
  change (length [SP; sg; d1; d2; d3; d4]) with 6 in S6.
  repeat split; assumption.
Qed.

Lemma line_last_byte :
  length line = S (m + 6 + length tail) /\
  byte_at line (length line - 1) = LF.
Proof.
  destruct line_suffixes
    as (sg & d1 & d2 & d3 & d4 & _ & _ & _ & _ & _ & _ & _ & _ & _ & _
        & _ & _ & S6).
  assert (Hlen : length line = S (m + 6 + length tail)).
  { pose proof (skipn_length_le line _ _ S6) as H.
    rewrite length_app in H. simpl in H.
    rewrite <- H; [lia | now destruct tail]. }
  split; [exact Hlen|].
  rewrite Hlen. replace (S (m + 6 + length tail) - 1)
    with (m + 6 + length tail) by lia.
  rewrite byte_at_skipn, S6. unfold byte_at. apply nth_middle.
Qed.

Lemma parse_header_line :
  parse_header line = Some (old, new, 82, 82 + length who).
Proof.
  destruct line_suffixes
    as (sg & d1 & d2 & d3 & d4 & _ & _ & _ & Hline & S40 & S41 & S81 & S82
        & Sgt & _).
  destruct line_last_byte as [Hlen HLF].
  unfold parse_header. rewrite HLF, Hlen.
  change (is_lf LF) with true. cbn [Nat.eqb orb negb].
  rewrite (parse_oid_hex_at line 0 old _ Hline Hold). cbv beta iota.
  change (0 + GIT_SHA1_HEXSZ) with 40.
  rewrite (byte_at_skipn_0 line 40), S40.
  change (40 + 1) with 41.
  rewrite (parse_oid_hex_at line 41 new _ S41 Hnew). cbv beta iota.
  change (41 + GIT_SHA1_HEXSZ) with 81.
  rewrite (byte_at_skipn_0 line 81), S81.
  change (81 + 1) with 82.
  rewrite (strchr_at line who _ 82 ">" S82)
    by (apply plain_ident_who; assumption).
  cbv beta iota.
  rewrite (byte_at_skipn line (82 + length who) 1), Sgt.
  reflexivity.
Qed.

(** The line is accepted, and this is what the decoder leaves behind. *)
Lemma bkl_parse_entry_line :
  bkl_parse_entry line =
  Parsed (set_byte (set_byte line (82 + length who + 1) NUL)
                   (length line - 1) NUL)
         {| old_oid := old; new_oid := new; email := 82; timestamp := stamp;
            tz := int_of_long (strtol (format_tz zone ++ tail ++ [LF]) 0);
            path := if negb (Ascii.eqb (byte_at (tail ++ [LF]) 0) TAB)
                    then m + 6 else m + 7 |}.
Proof.
  destruct line_suffixes
    as (sg & d1 & d2 & d3 & d4 & Hfmt & Hsg & Hdig & _ & _ & _ & _ & _
        & _ & Sts & Sm & Stz & S6).
  destruct (decimal_spec stamp ltac:(lia)) as (Hda & Hdv & Hdne).
  unfold bkl_parse_entry. rewrite parse_header_line.
  rewrite parse_timestamp_skipn, Sts.
  rewrite parse_timestamp_digits;
    [|exact Hda | exact Hdne | reflexivity].
  rewrite Hdv. rewrite (proj2 (Z.ltb_ge UINTMAX_MAX stamp)) by lia.
  cbn [fst snd]. fold m.
  rewrite (proj2 (Z.eqb_neq stamp 0)) by lia.
  assert (Hshape : timezone_shape line m = true).
  { unfold timezone_shape.
    rewrite !(byte_at_skipn line m), (byte_at_skipn_0 line m), Sm.
    cbn [byte_at nth].
    inversion Hdig as [|? ? H1 Hd1]; subst.
    inversion Hd1 as [|? ? H2 Hd2]; subst.
    inversion Hd2 as [|? ? H3 Hd3]; subst.
    inversion Hd3 as [|? ? H4 _]; subst.
    rewrite H1, H2, H3, H4. destruct Hsg; subst; reflexivity. }
  rewrite Hshape. cbn [negb orb].
  rewrite strtol_skipn, skipn_set_byte_gt by (unfold m; lia).
  rewrite Stz, Hfmt.
  rewrite (byte_at_skipn_0 _ (m + 6)), skipn_set_byte_gt
    by (unfold m; lia).
  rewrite S6. reflexivity.
Qed.

End DecodeLine.

(** ** The claims about the codec *)

(** C8.  When both identifiers are equal, [bkl_append] leaves the output
    buffer as it was; on an empty buffer it yields no bytes, and writing
    that buffer adds nothing to the log. *)
Theorem noop_transition_not_logged (ci output pth : list ascii)
    (from to : object_id) (content : list ascii) :
  oideq from to = true ->
  bkl_append ci output pth from to = output /\
  bkl_append ci [] pth from to = [] /\
  bkl_write true (Some content) (bkl_append ci [] pth from to)
  = (0%Z, Some content) /\
  event_lines [{| ev_committer := ci; ev_path := pth;
                  ev_from := from; ev_to := to |}] = [].
Proof.
  intros H. unfold bkl_append, event_lines. simpl. rewrite H.
  repeat split. now rewrite app_nil_r.
Qed.

Lemma noop_transition_not_logged_witness :
  oideq a_oid a_oid = true /\
  bkl_append example_ci (bytes "kept") (bytes "refs/heads/none") a_oid a_oid
  = bytes "kept" /\
  bkl_append example_ci [] (bytes "refs/heads/none") a_oid a_oid = [] /\
  bkl_write true (Some example_log)
    (bkl_append example_ci [] (bytes "refs/heads/none") a_oid a_oid)
  = (0%Z, Some example_log) /\
  event_lines [{| ev_committer := example_ci;
                  ev_path := bytes "refs/heads/none";
                  ev_from := a_oid; ev_to := a_oid |}] = [].
Proof.
  split; [reflexivity|].
  apply (noop_transition_not_logged example_ci (bytes "kept")
           (bytes "refs/heads/none") a_oid a_oid example_log).
  reflexivity.
Defined.

Lemma byte_at_in_range (sb : list ascii) (i : nat) :
  byte_at sb i <> NUL -> i < length sb.
Proof.
  intros H. destruct (Nat.lt_ge_cases i (length sb)) as [Hlt|Hge]; [exact Hlt|].
  exfalso. apply H. unfold byte_at. now apply nth_overflow.
Qed.

Lemma strchr_offset_spec (l : list ascii) (c : ascii) (k : nat) :
  is_nul c = false ->
  strchr_offset l c = Some k ->
  exists a rest, l = a ++ c :: rest /\ k = length a /\ no_nul a.
Proof.
  intros Hc. revert k; induction l as [|x l IH]; intros k H; simpl in H.
  - rewrite Hc in H. discriminate.
  - destruct (Ascii.eqb x c) eqn:E.
    + apply Ascii.eqb_eq in E. subst x. inversion H; subst.
      exists [], l. repeat split. constructor.
    + destruct (is_nul x) eqn:En; [discriminate|].
      destruct (strchr_offset l c) as [k'|] eqn:Ek; [|discriminate].
      inversion H; subst.
      destruct (IH k' eq_refl) as (a & rest & -> & -> & Ha).
      exists (x :: a), rest. repeat split. now constructor.
Qed.

Lemma strchr_spec (sb : list ascii) (p e : nat) (c : ascii) :
  is_nul c = false ->
  strchr sb p c = Some e ->
  exists a rest, skipn p sb = a ++ c :: rest /\ e = p + length a /\ no_nul a.
Proof.
  intros Hc H. unfold strchr in H.
  destruct (strchr_offset (skipn p sb) c) as [k|] eqn:E; [|discriminate].
  inversion H; subst.
  destruct (strchr_offset_spec _ _ _ Hc E) as (a & rest & Hs & -> & Ha).
  now exists a, rest.
Qed.

(** What an accepted line has passed, read off the code. *)
Lemma parse_header_spec (sb : strbuf) (old new : object_id)
    (p email_end : nat) :
  parse_header sb = Some (old, new, p, email_end) ->
  byte_at sb (length sb - 1) = LF /\ 0 < length sb /\
  byte_at sb (email_end + 1) = SP /\
  strchr sb p ">" = Some email_end.
Proof.
  unfold parse_header. intros H.
  destruct (length sb =? 0) eqn:El; [discriminate|]. apply Nat.eqb_neq in El.
  destruct (is_lf (byte_at sb (length sb - 1))) eqn:Elf; [|discriminate].
  cbn [orb negb] in H.
  destruct (parse_oid_hex sb 0) as [[o1 p1]|]; [|discriminate].
  destruct (Ascii.eqb (byte_at sb p1) SP); [|discriminate]. cbn [negb] in H.
  destruct (parse_oid_hex sb (p1 + 1)) as [[o2 p2]|]; [|discriminate].
  destruct (Ascii.eqb (byte_at sb p2) SP); [|discriminate]. cbn [negb] in H.
  destruct (strchr sb (p2 + 1) ">") as [e|] eqn:Es; [|discriminate].
  destruct (Ascii.eqb (byte_at sb (e + 1)) SP) eqn:Esp; [|discriminate].
  cbn [negb] in H. inversion H; subst.
  repeat split; try lia; try assumption.
  - now apply Ascii.eqb_eq.
  - now apply Ascii.eqb_eq.
Qed.

Lemma timezone_shape_spec (sb : strbuf) (m : nat) :
  timezone_shape sb m = true <->
  byte_at sb m = SP /\
  (byte_at sb (m + 1) = "+"%char \/ byte_at sb (m + 1) = "-"%char) /\
  isdigit (byte_at sb (m + 2)) = true /\ isdigit (byte_at sb (m + 3)) = true /\
  isdigit (byte_at sb (m + 4)) = true /\ isdigit (byte_at sb (m + 5)) = true.
Proof.
  unfold timezone_shape.
  rewrite !andb_true_iff, orb_true_iff, !Ascii.eqb_eq. tauto.
Qed.

(** C5 (as amended).  Once the identifiers and the closing bracket with
    its space are found, the line is accepted if and only if the timestamp
    that [parse_timestamp] reads two characters after the bracket is not
    zero and is immediately followed by one space, a sign and at least
    four decimal digits; in every other case it is corrupt.  What follows
    the fourth digit is not examined. *)
Theorem timestamp_stage (sb : strbuf) (old new : object_id)
    (p email_end : nat) :
  parse_header sb = Some (old, new, p, email_end) ->
  let ts := fst (parse_timestamp sb (email_end + 2)) in
  let m := snd (parse_timestamp sb (email_end + 2)) in
  let shape :=
    ts <> 0%Z /\
    byte_at sb m = SP /\
    (byte_at sb (m + 1) = "+"%char \/ byte_at sb (m + 1) = "-"%char) /\
    isdigit (byte_at sb (m + 2)) = true /\
    isdigit (byte_at sb (m + 3)) = true /\
    isdigit (byte_at sb (m + 4)) = true /\
    isdigit (byte_at sb (m + 5)) = true in
  ((exists sb' re, bkl_parse_entry sb = Parsed sb' re) <-> shape) /\
  (bkl_parse_entry sb = Corrupt <-> ~ shape).
Proof.
  intros Hh ts m shape. unfold bkl_parse_entry. rewrite Hh.
  subst shape. rewrite <- timezone_shape_spec.
  subst ts m.
  destruct (parse_timestamp sb (email_end + 2)) as [ts m]. cbn [fst snd].
  destruct (ts =? 0)%Z eqn:Ets; [apply Z.eqb_eq in Ets | apply Z.eqb_neq in Ets];
    destruct (timezone_shape sb m) eqn:Esh; cbn [orb negb];
    (split; [split | split]);
    solve [ intros (sb' & re & H); discriminate H
          | intros [H1 H2]; congruence
          | intros _ [H1 H2]; congruence
          | intros _; reflexivity
          | intros _; split; [assumption | reflexivity]
          | intros _; eauto
          | intros H; discriminate H
          | intros H; exfalso; apply H; split; [assumption | reflexivity] ].
Qed.

Lemma parse_timestamp_end (sb : list ascii) (p : nat) :
  p <= snd (parse_timestamp sb p).
Proof.
  unfold parse_timestamp.
  destruct (Ascii.eqb _ "-" || Ascii.eqb _ "+");
    destruct (digits_loop _ 0%Z 0) as [v n];
    destruct (n =? 0); cbn [snd]; try lia;
    destruct (UINTMAX_MAX <? v)%Z; cbn [snd]; try lia;
    destruct (Ascii.eqb _ "-"); cbn [snd]; lia.
Qed.

(** Everything a successful call has found and done. *)
Lemma bkl_parse_entry_effect (sb sb' : strbuf) (re : bkl_entry) :
  bkl_parse_entry sb = Parsed sb' re ->
  exists email_end,
    parse_header sb = Some (old_oid re, new_oid re, email re, email_end) /\
    timezone_shape sb (snd (parse_timestamp sb (email_end + 2))) = true /\
    path re =
      (if Ascii.eqb
            (byte_at sb (snd (parse_timestamp sb (email_end + 2)) + 6)) TAB
       then snd (parse_timestamp sb (email_end + 2)) + 7
       else snd (parse_timestamp sb (email_end + 2)) + 6) /\
    strchr sb (email re) ">" = Some email_end /\
    byte_at sb email_end = ">"%char /\
    byte_at sb (email_end + 1) = SP /\
    byte_at sb (length sb - 1) = LF /\
    email_end + 1 < length sb - 1 /\
    sb' = set_byte (set_byte sb (email_end + 1) NUL) (length sb - 1) NUL /\
    byte_at sb' (email_end + 1) = NUL /\
    byte_at sb' (length sb - 1) = NUL /\
    (forall i, i <> email_end + 1 -> i <> length sb - 1 ->
               byte_at sb' i = byte_at sb i) /\
    length sb' = length sb /\
    email re <= email_end /\
    path re < length sb /\
    cstring_at sb' (email re) = slice sb (email re) (email_end + 1) /\
    cstring_at sb' (path re) = cstr (slice sb (path re) (length sb - 1)) /\
    sb' <> sb.
Proof.
  unfold bkl_parse_entry. intros H.
  destruct (parse_header sb) as [[[[old new] p] e]|] eqn:Eh; [|discriminate].
  destruct (parse_header_spec _ _ _ _ _ Eh) as (HLF & Hlen & Hsp & Hchr).
  pose proof (parse_timestamp_end sb (e + 2)) as Hend.
  destruct (parse_timestamp sb (e + 2)) as [ts m] eqn:Ept. cbn [snd] in Hend.
  destruct (ts =? 0)%Z; [discriminate|].
  destruct (timezone_shape sb m) eqn:Esh; [|discriminate].
  cbn [orb negb] in H. inversion H; subst sb' re; clear H.
  cbn [email path old_oid new_oid snd].
  pose proof Esh as Hshape.
  apply timezone_shape_spec in Esh as (_ & _ & _ & _ & _ & Hd5).
  destruct (strchr_spec sb p e ">" eq_refl Hchr) as (a & rest & Hs & He & Ha).
  assert (Hgt : byte_at sb e = ">"%char).
  { rewrite He, byte_at_skipn, Hs. unfold byte_at. apply nth_middle. }
  assert (He1 : e + 1 < length sb).
  { apply byte_at_in_range. rewrite Hsp. discriminate. }
  assert (He2 : e + 1 <> length sb - 1).
  { intros E. rewrite E, HLF in Hsp. discriminate. }
  assert (Hm5 : m + 5 < length sb).
  { apply byte_at_in_range. intros E. rewrite E in Hd5. discriminate. }
  assert (Hm5' : m + 5 <> length sb - 1).
  { intros E. rewrite E, HLF in Hd5. discriminate. }
  set (sb1 := set_byte sb (e + 1) NUL).
  assert (Hsb1 : forall i, i <> e + 1 -> byte_at sb1 i = byte_at sb i)
    by (intros i Hi; apply byte_at_set_byte_other; lia).
  assert (Hpath : (if negb (Ascii.eqb (byte_at sb1 (m + 6)) TAB)
                   then m + 6 else m + 7) <= length sb - 1
                  /\ e + 1 < (if negb (Ascii.eqb (byte_at sb1 (m + 6)) TAB)
                              then m + 6 else m + 7)).
  { assert (e + 1 < m + 6) by lia.
    destruct (Ascii.eqb (byte_at sb1 (m + 6)) TAB) eqn:Et; cbn [negb];
      [|lia].
    apply Ascii.eqb_eq in Et. rewrite Hsb1 in Et by lia.
    assert (m + 6 < length sb)
      by (apply byte_at_in_range; rewrite Et; discriminate).
    assert (m + 6 <> length sb - 1)
      by (intros E; rewrite E, HLF in Et; discriminate).
    lia. }
  destruct Hpath as [Hp1 Hp2].
  set (po := if negb (Ascii.eqb (byte_at sb1 (m + 6)) TAB)
             then m + 6 else m + 7) in *.
  exists e. rewrite Ept. cbn [snd]. fold po.
  repeat split; try assumption; try lia.
  - unfold po. rewrite Hsb1 by lia.
    now destruct (Ascii.eqb (byte_at sb (m + 6)) TAB).
  - rewrite byte_at_set_byte_other by lia.
    apply byte_at_set_byte_same. lia.
  - apply byte_at_set_byte_same. unfold sb1. rewrite length_set_byte. lia.
  - intros i Hi1 Hi2. rewrite byte_at_set_byte_other by lia.
    apply byte_at_set_byte_other. lia.
  - unfold sb1. now rewrite !length_set_byte.
  - assert (Hrest : exists rest', rest = SP :: rest' /\ rest' <> []).
    { destruct rest as [|x rest'].
      - exfalso. pose proof (skipn_length_le sb _ p Hs) as Hl.
        rewrite length_app in Hl. simpl in Hl.
        assert (a ++ [">"%char] <> []) by (now destruct a).
        specialize (Hl ltac:(now destruct a)). lia.
      - exists rest'. split.
        + f_equal. rewrite He in Hsp.
          rewrite <- Nat.add_assoc, byte_at_skipn, Hs in Hsp.
          unfold byte_at in Hsp.
          replace (length a + 1) with (length (a ++ [">"%char]) + 0) in Hsp
            by (rewrite length_app; simpl; lia).
          change (a ++ ">"%char :: x :: rest')
            with (a ++ [">"%char] ++ x :: rest') in Hsp.
          rewrite app_assoc, app_nth2_plus in Hsp. exact Hsp.
        + intros ->. pose proof (skipn_length_le sb _ p Hs) as Hl.
          rewrite length_app in Hl. simpl in Hl.
          specialize (Hl ltac:(now destruct a)). lia. }
    destruct Hrest as (rest' & -> & Hrest').
    assert (Hs' : skipn p sb = (a ++ [">"%char]) ++ SP :: rest')
      by (rewrite <- app_assoc; exact Hs).
    unfold sb1.
    replace (e + 1) with (p + length (a ++ [">"%char]))
      by (rewrite length_app; simpl; lia).
    rewrite (cstring_email_after_decode sb _ _ _ p Hs' Hrest').
    + unfold slice. rewrite Hs'.
      replace (p + length (a ++ [">"%char]) - p)
        with (length (a ++ [">"%char]) + 0) by lia.
      now rewrite firstn_app_2, app_nil_r.
    + apply Forall_app; split; [exact Ha | repeat constructor].
  - unfold cstring_at.
    rewrite skipn_set_byte_le by lia.
    rewrite cstr_set_byte_nul.
    unfold sb1. rewrite skipn_set_byte_gt by lia. reflexivity.
  - intros E. apply (f_equal (fun l => byte_at l (length sb - 1))) in E.
    rewrite byte_at_set_byte_same in E
      by (unfold sb1; rewrite length_set_byte; lia).
    rewrite HLF in E. discriminate.
Qed.

(** C10.  On success the line buffer is changed in place: the byte
    behind the bracket that ends the email and the final LF are
    overwritten with NUL, every other byte is kept; [email] and [path] point
    into that buffer, whose strings they denote, and the line is no longer
    what it was. *)
Theorem decode_overwrites_line (sb sb' : strbuf) (re : bkl_entry) :
  bkl_parse_entry sb = Parsed sb' re ->
  exists email_end,
    strchr sb (email re) ">" = Some email_end /\
    byte_at sb email_end = ">"%char /\
    byte_at sb (email_end + 1) = SP /\
    byte_at sb (length sb - 1) = LF /\
    email_end + 1 < length sb - 1 /\
    sb' = set_byte (set_byte sb (email_end + 1) NUL) (length sb - 1) NUL /\
    byte_at sb' (email_end + 1) = NUL /\
    byte_at sb' (length sb - 1) = NUL /\
    (forall i, i <> email_end + 1 -> i <> length sb - 1 ->
               byte_at sb' i = byte_at sb i) /\
    length sb' = length sb /\
    email re <= email_end /\
    path re < length sb /\
    cstring_at sb' (email re) = slice sb (email re) (email_end + 1) /\
    cstring_at sb' (path re) = cstr (slice sb (path re) (length sb - 1)) /\
    sb' <> sb.
Proof.
  intros H.
  destruct (bkl_parse_entry_effect sb sb' re H) as (e & _ & _ & _ & Hrest).
  exists e. exact Hrest.
Qed.

(** ** Encoded lines, decoded *)

Lemma strtol_format_tz (zone : Z) (rest : list ascii) :
  (-9999 <= zone <= 9999)%Z ->
  isdigit (byte_at rest 0) = false ->
  int_of_long (strtol (format_tz zone ++ rest) 0) = zone.
Proof.
  intros Hz Hrest.
  destruct (format_tz_spec zone Hz)
    as (sg & d1 & d2 & d3 & d4 & -> & Hsg & Hdig & Hval).
  cbn [app]. rewrite strtol_sign_4_digits by assumption.
  rewrite Hval. apply int_of_long_small. lia.
Qed.

Lemma bkl_append_line (ci pth : list ascii) (old new : object_id) :
  oideq old new = false ->
  bkl_append ci [] pth old new = line_with_tail ci (TAB :: pth) old new.
Proof. intros H. unfold bkl_append, line_with_tail. now rewrite H. Qed.

Section DecodedView.

Variables (old new : object_id) (name mail : list ascii) (stamp zone : Z).

Hypothesis Hold : valid_oid old.
Hypothesis Hnew : valid_oid new.
Hypothesis Hname : plain name.
Hypothesis Hmail : plain mail.
Hypothesis Hts : (0 < stamp <= UINTMAX_MAX)%Z.
Hypothesis Htz : (-9999 <= zone <= 9999)%Z.

Let ci := committer_info name mail stamp zone.

(** The fields that do not depend on what follows the timezone. *)
Lemma line_view_common (tail : list ascii) :
  exists sb' re,
    bkl_parse_entry (line_with_tail ci tail old new) = Parsed sb' re /\
    old_oid re = old /\ new_oid re = new /\ timestamp re = stamp /\
    cstring_at sb' (email re) = ident_who name mail ++ [">"%char] /\
    tz re = int_of_long (strtol (format_tz zone ++ tail ++ [LF]) 0) /\
    path re = (if negb (Ascii.eqb (byte_at (tail ++ [LF]) 0) TAB)
               then message_of name mail stamp + 6
               else message_of name mail stamp + 7) /\
    (forall k pth,
        skipn k tail = pth -> k <= length tail -> no_nul pth ->
        cstring_at sb' (message_of name mail stamp + 6 + k) = pth).
Proof.
  pose proof (bkl_parse_entry_line old new name mail stamp zone tail
                Hold Hnew Hname Hmail Hts Htz) as Hdec.
  destruct (line_suffixes old new name mail stamp zone tail Hold Hnew Htz)
    as (sg & d1 & d2 & d3 & d4 & _ & _ & _ & _ & _ & _ & _ & S82
        & _ & _ & _ & _ & S6).
  fold ci in Hdec, S82, S6.
  set (line := line_with_tail ci tail old new) in *.
  do 2 eexists. split; [exact Hdec|]. cbn [old_oid new_oid timestamp email
                                           tz path].
  repeat split.
  - replace (82 + length (ident_who name mail) + 1)
      with (82 + length (ident_who name mail ++ [">"%char]))
      by (rewrite length_app; simpl; lia).
    eapply cstring_email_after_decode.
    + rewrite <- app_assoc. exact S82.
    + intros H. apply (f_equal (@length ascii)) in H.
      rewrite length_app in H. simpl in H. lia.
    + apply Forall_app; split; [|repeat constructor].
      pose proof (plain_ident_who name mail Hname Hmail) as Hp.
      unfold plain in Hp. unfold no_nul.
      eapply Forall_impl; [|exact Hp]. intros c [_ Hc]. exact Hc.
  - intros k pth Hk Hle Hp.
    apply cstring_path_after_decode; [|  |exact Hp].
    + unfold message_of, email_end_of. change ident_start with 82. lia.
    + unfold message_of, email_end_of. change ident_start with 82.
      rewrite skipn_plus, S6, skipn_app, Hk.
      replace (k - length tail) with 0 by lia. reflexivity.
Qed.

(** The line [bkl_append] writes. *)
Lemma line_view_tab (pth : list ascii) :
  no_nul pth ->
  exists sb' re,
    bkl_parse_entry (line_with_tail ci (TAB :: pth) old new)
    = Parsed sb' re /\
    path re = message_of name mail stamp + 7 /\
    entry_view sb' re =
    (old, new, ident_who name mail ++ [">"%char], stamp, zone, pth).
Proof.
  intros Hp.
  destruct (line_view_common (TAB :: pth))
    as (sb' & re & Hdec & Ho & Hn & Ht & He & Hz & Hpath & Hstr).
  exists sb', re. split; [exact Hdec|].
  cbn [app byte_at nth] in Hpath.
  change (Ascii.eqb TAB TAB) with true in Hpath. cbn [negb] in Hpath.
  split; [exact Hpath|].
  unfold entry_view. rewrite Ho, Hn, Ht, He, Hz, Hpath.
  rewrite strtol_format_tz by (assumption || reflexivity).
  specialize (Hstr 1 pth eq_refl ltac:(simpl; lia) Hp).
  rewrite <- Nat.add_assoc in Hstr. change (6 + 1) with 7 in Hstr.
  rewrite Hstr. reflexivity.
Qed.

(** The legacy line, the path right behind the timezone digits. *)
Lemma line_view_legacy (pth : list ascii) :
  no_nul pth -> byte_at pth 0 <> TAB ->
  exists sb' re,
    bkl_parse_entry (legacy_line ci pth old new) = Parsed sb' re /\
    path re = message_of name mail stamp + 6 /\
    entry_view sb' re =
    (old, new, ident_who name mail ++ [">"%char], stamp, tz re, pth) /\
    (isdigit (byte_at pth 0) = false -> tz re = zone).
Proof.
  intros Hp Htab. unfold legacy_line.
  destruct (line_view_common pth)
    as (sb' & re & Hdec & Ho & Hn & Ht & He & Hz & Hpath & Hstr).
  exists sb', re. split; [exact Hdec|].
  assert (Hhd : Ascii.eqb (byte_at (pth ++ [LF]) 0) TAB = false).
  { apply Ascii.eqb_neq. destruct pth as [|c pth']; [discriminate|].
    exact Htab. }
  rewrite Hhd in Hpath. cbn [negb] in Hpath.
  split; [exact Hpath|]. split.
  - unfold entry_view. rewrite Ho, Hn, Ht, He, Hpath.
    specialize (Hstr 0 pth eq_refl ltac:(lia) Hp).
    rewrite Nat.add_0_r in Hstr. rewrite Hstr. reflexivity.
  - intros Hd. rewrite Hz. apply strtol_format_tz; [exact Htz|].
    destruct pth as [|c pth']; [reflexivity | exact Hd].
Qed.

End DecodedView.

(** C3.  Decoding the line that [bkl_append] produces for an entry gives
    the entry back: both identifiers, the identity, the timestamp, the
    timezone and the path.  The identifiers differ and have the fixed
    width, the committer string has the format of the actor-info provider,
    and the path is a C string without LF. *)
Theorem decode_encode_roundtrip (old new : object_id)
    (name mail : list ascii) (stamp zone : Z) (pth : list ascii) :
  oideq old new = false ->
  valid_oid old -> valid_oid new ->
  plain name -> plain mail ->
  (0 < stamp <= UINTMAX_MAX)%Z -> (-9999 <= zone <= 9999)%Z ->
  no_lf pth -> no_nul pth ->
  exists sb' re,
    bkl_parse_entry
      (bkl_append (committer_info name mail stamp zone) [] pth old new)
    = Parsed sb' re /\
    entry_view sb' re =
    (old, new, ident_who name mail ++ [">"%char], stamp, zone, pth).
Proof.
  intros Hne Hold Hnew Hname Hmail Hts Htz _ Hp.
  rewrite bkl_append_line by assumption.
  destruct (line_view_tab old new name mail stamp zone
              Hold Hnew Hname Hmail Hts Htz pth Hp)
    as (sb' & re & Hdec & _ & Hview).
  now exists sb', re.
Qed.

(** ** The claims at concrete inputs *)

Lemma append_then_iterate_witness :
  2 <= glibc_BUFSIZ /\
  example_fs "log"%string = fopen_of (write_batches example_batches) /\
  bkl_parse_file record_line example_fs "log"%string []
  = Some (0%Z, event_lines (concat example_batches)) /\
  bkl_parse_file_reverse glibc_BUFSIZ record_line example_fs "log"%string []
  = Some (Returned 0%Z, rev (event_lines (concat example_batches))).
Proof.
  assert (HB : 2 <= glibc_BUFSIZ) by (apply Nat.leb_le; reflexivity).
  split; [exact HB|]. split; [reflexivity|].
  refine (let H := append_then_iterate glibc_BUFSIZ example_batches example_fs
                     "log"%string HB _ eq_refl in
          conj (proj1 H) (proj1 (proj2 H))).
  repeat constructor.
Defined.



Lemma decode_encode_roundtrip_witness :
  oideq zero_oid a_oid = false /\
  exists sb' re,
    bkl_parse_entry
      (bkl_append example_ci [] (bytes "refs/heads/main") zero_oid a_oid)
    = Parsed sb' re /\
    entry_view sb' re =
    (zero_oid, a_oid, bytes "A U Thor <au@example.com>", 1700000000%Z, 0%Z,
     bytes "refs/heads/main").
Proof.
  split; [reflexivity|].
  apply (decode_encode_roundtrip zero_oid a_oid example_name example_mail
           1700000000 0 (bytes "refs/heads/main"));
    try reflexivity; try (unfold UINTMAX_MAX; lia); repeat constructor.
Defined.

(** C5, as stated, fails for a fifth digit behind the timezone: the line
    is accepted, although the sign is not followed by exactly four
    digits. *)
Lemma five_digit_timezone_accepted :
  parse_header five_digit_line = Some (zero_oid, a_oid, 82, 106) /\
  parse_timestamp five_digit_line (106 + 2) = (1700000000%Z, 118) /\
  ~ ((exists sb' re, bkl_parse_entry five_digit_line = Parsed sb' re) <->
     (1700000000%Z <> 0%Z /\ exactly_four_digits five_digit_line 118 = true)).
Proof.
  split; [vm_compute; reflexivity|]. split; [vm_compute; reflexivity|].
  intros [H _].
  assert (Hacc : exists sb' re, bkl_parse_entry five_digit_line = Parsed sb' re)
    by (do 2 eexists; vm_compute; reflexivity).
  destruct (H Hacc) as [_ Hfour]. vm_compute in Hfour. discriminate.
Qed.

Lemma timestamp_stage_witness :
  parse_header example_line = Some (zero_oid, a_oid, 82, 106) /\
  ((exists sb' re, bkl_parse_entry example_line = Parsed sb' re) <->
   fst (parse_timestamp example_line (106 + 2)) <> 0%Z /\
   byte_at example_line (snd (parse_timestamp example_line (106 + 2))) = SP /\
   (byte_at example_line (snd (parse_timestamp example_line (106 + 2)) + 1)
    = "+"%char \/
    byte_at example_line (snd (parse_timestamp example_line (106 + 2)) + 1)
    = "-"%char) /\
   isdigit (byte_at example_line
              (snd (parse_timestamp example_line (106 + 2)) + 2)) = true /\
   isdigit (byte_at example_line
              (snd (parse_timestamp example_line (106 + 2)) + 3)) = true /\
   isdigit (byte_at example_line
              (snd (parse_timestamp example_line (106 + 2)) + 4)) = true /\
   isdigit (byte_at example_line
              (snd (parse_timestamp example_line (106 + 2)) + 5)) = true).
Proof.
  assert (Hh : parse_header example_line = Some (zero_oid, a_oid, 82, 106))
    by (vm_compute; reflexivity).
  split; [exact Hh|].
  exact (proj1 (timestamp_stage example_line zero_oid a_oid 82 106 Hh)).
Defined.

(** C6.  The tab form and the legacy form of the same fields do not
    decode to the same fields when the path begins with a digit.  For the
    identifiers, the identity and the timestamp of the sample entry, the
    timezone +0000 and the path 1abc, both lines are accepted and give
    these identifiers, this identity, this timestamp and the path 1abc;
    the line with the tab gives the timezone 0, and the legacy line, which
    ends in +00001abc, gives the timezone 1. *)
Theorem legacy_digit_path_changes_timezone :
  legacy_line example_ci (bytes "1abc") zero_oid a_oid =
  bytes ("0000000000000000000000000000000000000000 "
         ++ "aaaaaaaaaaaaaaaaaaaaaaaaaaaaaaaaaaaaaaaa "
         ++ "A U Thor <au@example.com> 1700000000 +00001abc") ++ [LF] /\
  exists sb1 re1 sb2 re2,
    bkl_parse_entry
      (line_with_tail example_ci (TAB :: bytes "1abc") zero_oid a_oid)
    = Parsed sb1 re1 /\
    bkl_parse_entry (legacy_line example_ci (bytes "1abc") zero_oid a_oid)
    = Parsed sb2 re2 /\
    entry_view sb1 re1 =
    (zero_oid, a_oid, bytes "A U Thor <au@example.com>", 1700000000%Z, 0%Z,
     bytes "1abc") /\
    entry_view sb2 re2 =
    (zero_oid, a_oid, bytes "A U Thor <au@example.com>", 1700000000%Z, 1%Z,
     bytes "1abc") /\
    cstring_at sb1 (path re1) = bytes "1abc" /\
    cstring_at sb2 (path re2) = bytes "1abc" /\
    tz re1 = 0%Z /\ tz re2 = 1%Z /\ tz re1 <> tz re2.
Proof.
  split; [vm_compute; reflexivity|].
  do 4 eexists. split; [vm_compute; reflexivity|].
  split; [vm_compute; reflexivity|].
  repeat split; try (vm_compute; reflexivity). vm_compute. discriminate.
Qed.

Lemma missing_log_is_empty_witness :
  missing_fs "log"%string = Fopen_null ENOENT /\
  missing_file_errno ENOENT = true /\
  bkl_parse_file (traced stop_at_second) missing_fs "log"%string (0, [])
  = Some (0%Z, (0, [])) /\
  bkl_parse_file_reverse glibc_BUFSIZ (traced stop_at_second) missing_fs
    "log"%string (0, [])
  = Some (Returned 0%Z, (0, [])).
Proof.
  split; [reflexivity|]. split; [reflexivity|].
  apply (missing_log_is_empty glibc_BUFSIZ nat stop_at_second missing_fs
           "log"%string ENOENT 0); reflexivity.
Defined.

(** C9, as stated, fails for a file that does not end with a line feed:
    both readers hand the unterminated rest to the callback as a line. *)
Lemma unterminated_last_line :
  bkl_parse_file record_line (fun _ => Fopen_stream (bytes "a"))
    "log"%string [] = Some (0%Z, [bytes "a"]) /\
  bkl_parse_file_reverse glibc_BUFSIZ record_line
    (fun _ => Fopen_stream (bytes "a")) "log"%string []
  = Some (Returned 0%Z, [bytes "a"]) /\
  ~ lf_terminated (bytes "a").
Proof.
  split; [vm_compute; reflexivity|]. split; [vm_compute; reflexivity|].
  intros [body H]. destruct body as [|c [|c' body]]; discriminate H.
Qed.

Lemma lines_keep_their_lf_witness :
  2 <= glibc_BUFSIZ /\
  unterminated_fs "log"%string = Fopen_stream unterminated_log /\
  unterminated_log <> [] /\ ~ lf_terminated unterminated_log /\
  (exists ret d' seen,
      bkl_parse_file (traced stop_at_second) unterminated_fs "log"%string
        (0, [])
      = Some (ret, (d', seen))
      /\ (exists rest, lines_of unterminated_log = seen ++ rest)
      /\ Forall (line_handed unterminated_log) seen
      /\ Forall one_line (removelast seen)
      /\ (unterminated_log = [] \/ lf_terminated unterminated_log ->
          Forall one_line seen)) /\
  (exists out d' seen,
      bkl_parse_file_reverse glibc_BUFSIZ (traced stop_at_second)
        unterminated_fs "log"%string (0, [])
      = Some (out, (d', seen))
      /\ (exists rest, rev (lines_of unterminated_log) = seen ++ rest)
      /\ Forall (line_handed unterminated_log) seen
      /\ Forall one_line (tl seen)
      /\ (unterminated_log = [] \/ lf_terminated unterminated_log ->
          Forall one_line seen)) /\
  (exists u ls out rs,
     unterminated u /\
     (exists pre,
         unterminated_log = pre ++ u /\ (pre = [] \/ lf_terminated pre)) /\
     Forall one_line ls /\
     bkl_parse_file record_line unterminated_fs "log"%string []
     = Some (0%Z, ls ++ [u]) /\
     bkl_parse_file_reverse glibc_BUFSIZ record_line unterminated_fs
       "log"%string []
     = Some (out, u :: rs)).
Proof.
  assert (HB : 2 <= glibc_BUFSIZ) by (apply Nat.leb_le; reflexivity).
  assert (Hne : unterminated_log <> []) by discriminate.
  assert (Hno : ~ lf_terminated unterminated_log).
  { change unterminated_log with ((bytes "ab" ++ [LF] ++ bytes "c") ++ ["d"%char]).
    apply not_lf_terminated_last. reflexivity. }
  split; [exact HB|]. split; [reflexivity|].
  split; [exact Hne|]. split; [exact Hno|].
  destruct (lines_keep_their_lf glibc_BUFSIZ nat stop_at_second
              unterminated_fs "log"%string unterminated_log 0 HB eq_refl)
    as (Hf & Hr & Hu).
  split; [exact Hf|]. split; [exact Hr|]. exact (Hu Hne Hno).
Defined.

Lemma decode_overwrites_line_witness :
  bkl_parse_entry example_line = Parsed example_decoded example_entry /\
  exists email_end,
    strchr example_line (email example_entry) ">" = Some email_end /\
    byte_at example_line email_end = ">"%char /\
    byte_at example_decoded (email_end + 1) = NUL /\
    byte_at example_decoded (length example_line - 1) = NUL /\
    example_decoded <> example_line.
Proof.
  assert (Hdec : bkl_parse_entry example_line
                 = Parsed example_decoded example_entry)
    by (vm_compute; reflexivity).
  split; [exact Hdec|].
  destruct (decode_overwrites_line example_line example_decoded example_entry
              Hdec)
    as (e & H1 & H2 & _ & _ & _ & _ & H7 & H8 & _ & _ & _ & _ & _ & _ & H15).
  exists e. repeat split; assumption.
Defined.


(** * Further properties of the code *)

(** ** find_beginning_of_line *)

(** X1.  For any start of the buffer [bob] and any [scan] between it and
    the end of the buffer, [find_beginning_of_line] returns a position
    between [bob] and [scan], strictly before [scan] unless [scan] is
    [bob]; it has stepped over no LF, and it stands on a LF unless it has
    reached [bob]. *)
Theorem find_beginning_of_line_range (buf : list ascii) (bob scan : nat) :
  bob <= scan -> scan <= length buf ->
  let r := find_beginning_of_line buf bob scan in
  bob <= r /\ r <= scan /\ (bob < scan -> r < scan) /\
  no_lf (slice buf (S r) scan) /\
  (r = bob \/ is_lf (byte_at buf r) = true).
Proof.
  induction scan as [|s IH]; intros Hb Hlen.
  - simpl. assert (bob = 0) by lia. subst.
    repeat split; try lia; try solve [constructor]; now left.
  - cbn [find_beginning_of_line].
    destruct (Nat.ltb_spec bob (S s)) as [Hlt|Hge].
    + destruct (is_lf (byte_at buf s)) eqn:E; cbv zeta.
      * rewrite slice_empty.
        repeat split; try lia; try solve [constructor]; now right.
      * destruct IH as (H1 & H2 & H3 & H4 & H5); [lia | lia |].
        cbv zeta in *.
        set (r := find_beginning_of_line buf bob s) in *.
        repeat split; try lia; [|exact H5].
        destruct (Nat.eq_dec r s) as [->|Hne].
        -- rewrite slice_empty. constructor.
        -- rewrite <- (slice_app buf (S r) s (S s)) by lia.
           apply Forall_app; split; [exact H4|].
           rewrite slice_one by lia. now constructor.
    + cbv zeta. assert (bob = S s) by lia. subst bob.
      unfold slice. replace (S s - S (S s)) with 0 by lia. cbn [firstn].
      repeat split; try lia; try solve [constructor]; now left.
Qed.

Lemma find_beginning_of_line_range_witness :
  2 <= 9 /\ 9 <= length (bytes "ab" ++ [LF] ++ bytes "cd" ++ [LF] ++ bytes "efg") /\
  find_beginning_of_line
    (bytes "ab" ++ [LF] ++ bytes "cd" ++ [LF] ++ bytes "efg") 2 9 = 5 /\
  no_lf (slice (bytes "ab" ++ [LF] ++ bytes "cd" ++ [LF] ++ bytes "efg") 6 9).
Proof.
  assert (H1 : 2 <= 9) by lia.
  assert (H2 : 9 <= length (bytes "ab" ++ [LF] ++ bytes "cd" ++ [LF]
                                  ++ bytes "efg")) by (simpl; lia).
  split; [exact H1|]. split; [exact H2|]. split; [reflexivity|].
  exact (proj1 (proj2 (proj2 (proj2
           (find_beginning_of_line_range _ 2 9 H1 H2))))).
Defined.

(** ** The readers on arbitrary files *)

(** X2.  On an existing file the forward reader hands the callback the
    lines of the file, oldest first, until the callback returns non-zero,
    and returns what the callback returned last (0 for an empty file).
    The lines are the file content cut after every LF, which can be done
    in one way only: joined they are the file content, every line but the
    last is a body free of LF followed by its LF, and the last line is
    such a line too when the file ends with LF and else the non-empty rest
    of the file without any LF. *)
Theorem forward_reader_lines (fs : filesystem) (path : string)
    (content : list ascii) :
  fs path = Fopen_stream content ->
  exists ls,
    concat ls = content /\ Forall single_line ls /\
    Forall one_line (removelast ls) /\
    (content = [] \/ lf_terminated content -> Forall one_line ls) /\
    (content <> [] -> ~ lf_terminated content -> unterminated (last ls [])) /\
    cut_at_lf content ls /\
    (forall ls', cut_at_lf content ls' -> ls' = ls) /\
    bkl_parse_file record_line fs path [] = Some (0%Z, ls) /\
    forall (D : Type) (parse : strbuf -> D -> Z * D) (d : D),
      bkl_parse_file parse fs path d = Some (feed parse ls d).
Proof.
  intros Hfs. exists (lines_of content).
  destruct (lines_of_handed content) as (_ & Hinit & Hall).
  split; [apply concat_lines_of|]. split; [apply lines_of_all_single|].
  split; [exact Hinit|]. split; [exact Hall|]. split.
  { intros Hne Hno.
    destruct (lines_of_shape content) as [-> | (init & lst & El & _ & Hl)];
      [congruence|].
    rewrite El, last_last. destruct Hl as [[_ H] | [H _]];
      [contradiction | exact H]. }
  split; [apply lines_of_cut_at_lf|].
  split; [intros ls'; apply cut_at_lf_lines_of|].
  unfold bkl_parse_file. rewrite Hfs. split.
  - rewrite forward_loop_spec by lia. simpl. now rewrite feed_record_line.
  - intros D parse d. now rewrite forward_loop_spec by lia.
Qed.

Lemma forward_reader_lines_witness :
  unterminated_fs "log"%string = Fopen_stream unterminated_log /\
  exists ls,
    concat ls = unterminated_log /\ Forall single_line ls /\
    Forall one_line (removelast ls) /\
    (unterminated_log = [] \/ lf_terminated unterminated_log ->
     Forall one_line ls) /\
    (unterminated_log <> [] -> ~ lf_terminated unterminated_log ->
     unterminated (last ls [])) /\
    cut_at_lf unterminated_log ls /\
    (forall ls', cut_at_lf unterminated_log ls' -> ls' = ls) /\
    bkl_parse_file record_line unterminated_fs "log"%string []
    = Some (0%Z, ls) /\
    bkl_parse_file stop_at_second unterminated_fs "log"%string 0
    = Some (feed stop_at_second ls 0).
Proof.
  split; [reflexivity|].
  destruct (forward_reader_lines unterminated_fs "log"%string
              unterminated_log eq_refl)
    as (ls & H1 & H2 & H3 & H4 & H5 & H6 & H7 & H8 & H9).
  exists ls.
  exact (conj H1 (conj H2 (conj H3 (conj H4 (conj H5 (conj H6 (conj H7
           (conj H8 (H9 nat stop_at_second 0))))))))).
Defined.

(** X3.  On every file that does not begin with a line feed, with or
    without a final line feed, and for every block size from two bytes
    on, the list of lines the reverse reader records is the reverse of the
    list the forward reader records, and both return 0. *)
Theorem reverse_reader_mirrors_forward (BUFSIZ : nat) (fs : filesystem)
    (path : string) (content : list ascii) :
  2 <= BUFSIZ ->
  fs path = Fopen_stream content ->
  starts_with_lf content = false ->
  exists ls,
    bkl_parse_file record_line fs path [] = Some (0%Z, ls) /\
    bkl_parse_file_reverse BUFSIZ record_line fs path []
    = Some (Returned 0%Z, rev ls).
Proof.
  intros HB Hfs Hhd. exists (lines_of content).
  unfold bkl_parse_file, bkl_parse_file_reverse. rewrite Hfs. split.
  - rewrite forward_loop_spec by lia. simpl. now rewrite feed_record_line.
  - rewrite reverse_scan_spec by assumption.
    rewrite reverse_spec_lines by assumption.
    now rewrite feed_record_line.
Qed.

Lemma reverse_reader_mirrors_forward_witness :
  2 <= 3 /\
  starts_with_lf (bytes "ab" ++ [LF; LF] ++ bytes "cdefg") = false /\
  exists ls,
    bkl_parse_file record_line
      (fun _ => Fopen_stream (bytes "ab" ++ [LF; LF] ++ bytes "cdefg"))
      "log"%string []
    = Some (0%Z, ls) /\
    bkl_parse_file_reverse 3 record_line
      (fun _ => Fopen_stream (bytes "ab" ++ [LF; LF] ++ bytes "cdefg"))
      "log"%string []
    = Some (Returned 0%Z, rev ls).
Proof.
  split; [lia|]. split; [reflexivity|].
  apply (reverse_reader_mirrors_forward 3
           (fun _ => Fopen_stream (bytes "ab" ++ [LF; LF] ++ bytes "cdefg"))
           "log"%string (bytes "ab" ++ [LF; LF] ++ bytes "cdefg"));
    [lia | reflexivity | reflexivity].
Defined.

(** ** The reverse reader on a file that begins with a line feed *)

(** X4.  On a file of at least two bytes that begins with a line feed,
    and for every block size from two bytes on, the reverse reader hands
    the callback the lines of the rest of the file, newest first, and
    never the empty first line; unless the callback stops the scan, it
    ends in [BUG("reverse reflog parser had leftover data")]. *)
Theorem reverse_reader_leading_lf (BUFSIZ : nat) (D : Type)
    (parse : strbuf -> D -> Z * D) (fs : filesystem) (path : string)
    (rest : list ascii) (d : D) :
  2 <= BUFSIZ ->
  fs path = Fopen_stream (LF :: rest) ->
  rest <> [] ->
  bkl_parse_file_reverse BUFSIZ parse fs path d =
  Some (bug_unless_stopped (feed parse (rev (lines_of rest)) d)).
Proof.
  intros HB Hfs Hrest. unfold bkl_parse_file_reverse. rewrite Hfs.
  now apply reverse_scan_leading_lf.
Qed.

Lemma reverse_reader_leading_lf_witness :
  2 <= glibc_BUFSIZ /\
  bytes "abc" ++ [LF] ++ bytes "de" ++ [LF] <> [] /\
  bkl_parse_file_reverse glibc_BUFSIZ record_line
    (fun _ => Fopen_stream (LF :: bytes "abc" ++ [LF] ++ bytes "de" ++ [LF]))
    "log"%string []
  = Some (BUG_leftover, [bytes "de" ++ [LF]; bytes "abc" ++ [LF]]) /\
  bkl_parse_file_reverse glibc_BUFSIZ stop_at_second
    (fun _ => Fopen_stream (LF :: bytes "abc" ++ [LF] ++ bytes "de" ++ [LF]))
    "log"%string 0
  = Some (Returned 1%Z, 2).
Proof.
  assert (HB : 2 <= glibc_BUFSIZ) by (apply Nat.leb_le; reflexivity).
  assert (Hne : bytes "abc" ++ [LF] ++ bytes "de" ++ [LF] <> [])
    by discriminate.
  split; [exact HB|]. split; [exact Hne|]. split.
  - exact (reverse_reader_leading_lf glibc_BUFSIZ _ record_line
             (fun _ => Fopen_stream
                         (LF :: bytes "abc" ++ [LF] ++ bytes "de" ++ [LF]))
             "log"%string _ [] HB eq_refl Hne).
  - exact (reverse_reader_leading_lf glibc_BUFSIZ _ stop_at_second
             (fun _ => Fopen_stream
                         (LF :: bytes "abc" ++ [LF] ++ bytes "de" ++ [LF]))
             "log"%string _ 0 HB eq_refl Hne).
Defined.

(** X5.  To look at the newest record only: when the file is neither
    empty nor a single line feed and the callback returns non-zero on the
    last line of the file, the reverse reader calls it on that line and on
    no other, and returns its value, for every block size from two bytes
    on, also on a file that begins with a line feed. *)
Theorem reverse_reader_newest_only (BUFSIZ : nat) (D : Type)
    (parse : strbuf -> D -> Z * D) (fs : filesystem) (path : string)
    (content : list ascii) (d : D) :
  2 <= BUFSIZ ->
  fs path = Fopen_stream content ->
  content <> [] -> content <> [LF] ->
  fst (parse (last (lines_of content) []) d) <> 0%Z ->
  bkl_parse_file_reverse BUFSIZ (traced parse) fs path (d, []) =
  Some (Returned (fst (parse (last (lines_of content) []) d)),
        (snd (parse (last (lines_of content) []) d),
         [last (lines_of content) []])).
Proof.
  intros HB Hfs Hne Hlf Hstop.
  assert (Hfeed : forall ls : list strbuf,
             ls <> [] -> last ls [] = last (lines_of content) [] ->
             feed (traced parse) (rev ls) (d, []) =
             (fst (parse (last (lines_of content) []) d),
              (snd (parse (last (lines_of content) []) d),
               [last (lines_of content) []]))).
  { intros ls Hls Hlast. rewrite (rev_lines_head ls Hls), Hlast.
    cbn [feed]. unfold traced at 1. cbn [fst snd app].
    destruct (parse (last (lines_of content) []) d) as [ret d'].
    cbn [fst snd] in *.
    now rewrite (proj2 (Z.eqb_neq ret 0) Hstop). }
  destruct (starts_with_lf content) eqn:Ehd.
  - destruct content as [|c rest]; [congruence|].
    simpl in Ehd. apply Ascii.eqb_eq in Ehd. subst c.
    assert (Hrest : rest <> []) by (intros ->; congruence).
    unfold bkl_parse_file_reverse. rewrite Hfs.
    rewrite reverse_scan_leading_lf by assumption.
    rewrite Hfeed.
    + unfold bug_unless_stopped. cbn [fst snd].
      now rewrite (proj2 (Z.eqb_neq _ 0) Hstop).
    + now apply lines_of_nonempty.
    + simpl. change (is_lf LF) with true. cbv iota.
      pose proof (lines_of_nonempty rest Hrest) as Hl.
      destruct (lines_of rest); [congruence | reflexivity].
  - unfold bkl_parse_file_reverse. rewrite Hfs.
    rewrite reverse_scan_spec by assumption.
    rewrite reverse_spec_lines by assumption.
    rewrite Hfeed; [reflexivity | now apply lines_of_nonempty | reflexivity].
Qed.

Lemma reverse_reader_newest_only_witness :
  2 <= glibc_BUFSIZ /\ example_log <> [] /\ example_log <> [LF] /\
  fst (stop_with 7 (last (lines_of example_log) []) 0) <> 0%Z /\
  bkl_parse_file_reverse glibc_BUFSIZ (traced (stop_with 7)) example_fs
    "log"%string (0, [])
  = Some (Returned 7%Z, (1, [last (lines_of example_log) []])).
Proof.
  assert (HB : 2 <= glibc_BUFSIZ) by (apply Nat.leb_le; reflexivity).
  assert (H1 : example_log <> []) by (vm_compute; discriminate).
  assert (H2 : example_log <> [LF]) by (vm_compute; discriminate).
  assert (H3 : fst (stop_with 7 (last (lines_of example_log) []) 0) <> 0%Z)
    by discriminate.
  repeat (split; [assumption|]).
  exact (reverse_reader_newest_only glibc_BUFSIZ nat (stop_with 7) example_fs
           "log"%string example_log 0 HB eq_refl H1 H2 H3).
Defined.


(** ** The decoder on arbitrary lines *)

Lemma hex_to_bytes_spec (n : nat) :
  forall l o,
    hex_to_bytes l n = Some o ->
    length o = n /\
    forall i, i < 2 * n -> hexval (byte_at l i) <> None.
Proof.
  induction n as [|n IH]; intros l o H.
  - simpl in H. inversion H. split; [reflexivity | intros i Hi; lia].
  - cbn [hex_to_bytes] in H.
    destruct l as [|h [|lo l']]; try discriminate.
    destruct (hexval h) as [vh|] eqn:Eh; [|discriminate].
    destruct (hexval lo) as [vl|] eqn:El; [|discriminate].
    destruct (hex_to_bytes l' n) as [o'|] eqn:Er; [|discriminate].
    simpl in H. inversion H; subst.
    destruct (IH l' o' Er) as [Hlen Hhex].
    split; [simpl; now rewrite Hlen|].
    intros [|[|i]] Hi; unfold byte_at; simpl; try congruence.
    apply (Hhex i). lia.
Qed.

(** Where the first test of [bkl_parse_entry] has found its pieces. *)
Lemma parse_header_layout (sb : strbuf) (old new : object_id)
    (p email_end : nat) :
  parse_header sb = Some (old, new, p, email_end) ->
  p = 82 /\ valid_oid old /\ valid_oid new /\
  byte_at sb 40 = SP /\ byte_at sb 81 = SP /\
  (forall i, i < 40 -> hexval (byte_at sb i) <> None) /\
  (forall i, 41 <= i < 81 -> hexval (byte_at sb i) <> None) /\
  82 <= email_end.
Proof.
  unfold parse_header. intros H.
  destruct ((length sb =? 0) || negb (is_lf (byte_at sb (length sb - 1))));
    [discriminate|].
  unfold parse_oid_hex in H.
  destruct (hex_to_bytes (skipn 0 sb) GIT_SHA1_RAWSZ) as [o1|] eqn:E1;
    [|discriminate].
  cbn [option_map] in H.
  change (0 + GIT_SHA1_HEXSZ) with 40 in H.
  destruct (Ascii.eqb (byte_at sb 40) SP) eqn:Es1; [|discriminate].
  cbn [negb] in H. change (40 + 1) with 41 in H.
  destruct (hex_to_bytes (skipn 41 sb) GIT_SHA1_RAWSZ) as [o2|] eqn:E2;
    [|discriminate].
  cbn [option_map] in H.
  change (41 + GIT_SHA1_HEXSZ) with 81 in H.
  destruct (Ascii.eqb (byte_at sb 81) SP) eqn:Es2; [|discriminate].
  cbn [negb] in H. change (81 + 1) with 82 in H.
  destruct (strchr sb 82 ">") as [e|] eqn:Ec; [|discriminate].
  destruct (Ascii.eqb (byte_at sb (e + 1)) SP); [|discriminate].
  cbn [negb] in H. inversion H; subst.
  destruct (hex_to_bytes_spec _ _ _ E1) as [L1 X1].
  destruct (hex_to_bytes_spec _ _ _ E2) as [L2 X2].
  apply Ascii.eqb_eq in Es1, Es2.
  repeat split; try assumption.
  - intros i Hi. replace i with (41 + (i - 41)) by lia.
    rewrite byte_at_skipn. apply X2. unfold GIT_SHA1_RAWSZ. lia.
  - unfold strchr in Ec.
    destruct (strchr_offset (skipn 82 sb) ">"); [|discriminate].
    inversion Ec. lia.
Qed.

Lemma digits_loop_nonneg (l : list ascii) :
  forall acc n, (0 <= acc)%Z -> (0 <= fst (digits_loop l acc n))%Z.
Proof.
  induction l as [|c l IH]; intros acc n Ha; cbn [digits_loop fst];
    [exact Ha|].
  destruct (isdigit c) eqn:E; [|exact Ha].
  apply IH. apply digit_value_range in E. lia.
Qed.

Lemma parse_timestamp_range (sb : list ascii) (p : nat) :
  (0 <= fst (parse_timestamp sb p) <= UINTMAX_MAX)%Z /\
  (fst (parse_timestamp sb p) <> 0%Z -> p < snd (parse_timestamp sb p)).
Proof.
  unfold parse_timestamp.
  set (q := p + count_space (skipn p sb)).
  set (sg := Ascii.eqb (byte_at sb q) "-" || Ascii.eqb (byte_at sb q) "+").
  pose proof (digits_loop_nonneg (skipn (if sg then q + 1 else q) sb) 0 0
                ltac:(lia)) as Hnn.
  destruct (digits_loop (skipn (if sg then q + 1 else q) sb) 0 0) as [v n].
  cbn [fst] in Hnn.
  assert (Hq : p <= (if sg then q + 1 else q))
    by (unfold q; destruct sg; lia).
  destruct (n =? 0) eqn:En; cbn [fst snd].
  - unfold UINTMAX_MAX. split; [lia | congruence].
  - apply Nat.eqb_neq in En.
    destruct (UINTMAX_MAX <? v)%Z eqn:Ev; cbn [fst snd].
    + unfold UINTMAX_MAX. split; [lia | intros _; lia].
    + apply Z.ltb_ge in Ev.
      destruct (Ascii.eqb (byte_at sb q) "-"); cbn [fst snd].
      * split; [|intros _; lia].
        pose proof (Z.mod_pos_bound (UINTMAX_MAX + 1 - v) (UINTMAX_MAX + 1)
                      ltac:(unfold UINTMAX_MAX; lia)). lia.
      * split; [lia | intros _; lia].
Qed.

Lemma int_of_long_range (v : Z) :
  (-2147483648 <= int_of_long v < 2147483648)%Z.
Proof.
  unfold int_of_long.
  pose proof (Z.mod_pos_bound (v + 2147483648) 4294967296 ltac:(lia)). lia.
Qed.

(** The numbers of an accepted line, as the code computes them. *)
Lemma bkl_parse_entry_numbers (sb sb' : strbuf) (re : bkl_entry) :
  bkl_parse_entry sb = Parsed sb' re ->
  exists email_end,
    parse_header sb = Some (old_oid re, new_oid re, email re, email_end) /\
    timestamp re = fst (parse_timestamp sb (email_end + 2)) /\
    timestamp re <> 0%Z /\
    tz re = int_of_long
              (strtol (set_byte sb (email_end + 1) NUL)
                      (snd (parse_timestamp sb (email_end + 2)) + 1)).
Proof.
  unfold bkl_parse_entry. intros H.
  destruct (parse_header sb) as [[[[old new] p] e]|]; [|discriminate].
  destruct (parse_timestamp sb (e + 2)) as [ts m] eqn:Ept.
  destruct (ts =? 0)%Z eqn:Ets; [discriminate|].
  destruct (timezone_shape sb m); [|discriminate].
  cbn [orb negb] in H. inversion H; subst; clear H.
  exists e. cbn [old_oid new_oid email timestamp tz]. rewrite Ept.
  cbn [fst snd]. repeat split. now apply Z.eqb_neq.
Qed.

(** X6.  A line can be decoded once: after a successful call the buffer
    ends in NUL instead of LF, and [bkl_parse_entry] on the buffer it has
    left behind reports a corrupt line. *)
Theorem decode_only_once (sb sb' : strbuf) (re : bkl_entry) :
  bkl_parse_entry sb = Parsed sb' re ->
  bkl_parse_entry sb' = Corrupt.
Proof.
  intros H.
  destruct (bkl_parse_entry_effect sb sb' re H)
    as (e & _ & _ & _ & _ & _ & _ & _ & _ & _ & _ & Hnul & _ & Hlen & _).
  unfold bkl_parse_entry, parse_header.
  rewrite Hlen, Hnul. change (is_lf NUL) with false.
  now rewrite orb_true_r.
Qed.

Lemma decode_only_once_witness :
  bkl_parse_entry example_line = Parsed example_decoded example_entry /\
  bkl_parse_entry example_decoded = Corrupt.
Proof.
  assert (H : bkl_parse_entry example_line
              = Parsed example_decoded example_entry)
    by (vm_compute; reflexivity).
  split; [exact H|].
  exact (decode_only_once example_line example_decoded example_entry H).
Defined.

(** X7.  What every accepted line looks like: forty hex digits, a space,
    forty hex digits, a space, so that the identity always starts at byte
    82; the line has at least 92 bytes and the path pointer stays inside
    it, at byte 91 or later; both identifiers have the fixed width; the
    timestamp is not zero and fits [uintmax_t]; the timezone fits
    [int]. *)
Theorem accepted_line_layout (sb sb' : strbuf) (re : bkl_entry) :
  bkl_parse_entry sb = Parsed sb' re ->
  (forall i, i < 40 -> hexval (byte_at sb i) <> None) /\
  byte_at sb 40 = SP /\
  (forall i, 41 <= i < 81 -> hexval (byte_at sb i) <> None) /\
  byte_at sb 81 = SP /\
  email re = 82 /\
  valid_oid (old_oid re) /\ valid_oid (new_oid re) /\
  92 <= length sb /\ 91 <= path re < length sb /\
  (0 < timestamp re <= UINTMAX_MAX)%Z /\
  (-2147483648 <= tz re < 2147483648)%Z.
Proof.
  intros H.
  destruct (bkl_parse_entry_effect sb sb' re H)
    as (e & Hh & _ & Hpath & _ & _ & _ & _ & _ & _ & _ & _ & _ & _ & _
        & Hplt & _).
  destruct (bkl_parse_entry_numbers sb sb' re H)
    as (e' & Hh' & Hts & Hnz & Htz).
  rewrite Hh in Hh'. inversion Hh'; subst e'; clear Hh'.
  destruct (parse_header_layout _ _ _ _ _ Hh)
    as (Hp & Ho & Hn & H40 & H81 & X1 & X2 & He).
  destruct (parse_timestamp_range sb (e + 2)) as [Hr Hend].
  rewrite <- Hts in Hr, Hend. specialize (Hend Hnz).
  assert (Hp91 : 91 <= path re).
  { rewrite Hpath.
    destruct (Ascii.eqb _ TAB); lia. }
  repeat split; try assumption; try lia.
  - rewrite Htz. apply int_of_long_range.
  - rewrite Htz. apply int_of_long_range.
Qed.

Lemma accepted_line_layout_witness :
  bkl_parse_entry example_line = Parsed example_decoded example_entry /\
  email example_entry = 82 /\
  92 <= length example_line /\
  91 <= path example_entry < length example_line.
Proof.
  assert (H : bkl_parse_entry example_line
              = Parsed example_decoded example_entry)
    by (vm_compute; reflexivity).
  split; [exact H|].
  destruct (accepted_line_layout example_line example_decoded example_entry H)
    as (_ & _ & _ & _ & He & _ & _ & Hl & Hp & _).
  repeat split; try assumption; apply Hp.
Defined.

Lemma skipn_cons_byte (l : list ascii) (i : nat) :
  i < length l -> skipn i l = byte_at l i :: skipn (S i) l.
Proof.
  unfold byte_at. revert i; induction l as [|x l IH]; intros [|i] H;
    simpl in *; try lia; [reflexivity|]. apply IH. lia.
Qed.

Lemma digits_value_4_range (d1 d2 d3 d4 : ascii) :
  all_digits [d1; d2; d3; d4] ->
  (0 <= digits_value [d1; d2; d3; d4] <= 9999)%Z.
Proof.
  intros Hd.
  inversion Hd as [|? ? H1 Hd1]; subst.
  inversion Hd1 as [|? ? H2 Hd2]; subst.
  inversion Hd2 as [|? ? H3 Hd3]; subst.
  inversion Hd3 as [|? ? H4 _]; subst.
  apply digit_value_range in H1, H2, H3, H4.
  unfold digits_value; cbn [fold_left]. lia.
Qed.

(** X8.  When the byte behind the four timezone digits is not a digit, as
    in every line [bkl_append] writes, the timezone returned is the value
    of the four digits with the sign in front of them, between -9999 and
    9999. *)
Theorem timezone_value (sb sb' : strbuf) (re : bkl_entry)
    (old new : object_id) (p email_end : nat) :
  bkl_parse_entry sb = Parsed sb' re ->
  parse_header sb = Some (old, new, p, email_end) ->
  let m := snd (parse_timestamp sb (email_end + 2)) in
  let v := digits_value [byte_at sb (m + 2); byte_at sb (m + 3);
                         byte_at sb (m + 4); byte_at sb (m + 5)] in
  isdigit (byte_at sb (m + 6)) = false ->
  tz re = (if Ascii.eqb (byte_at sb (m + 1)) "-" then - v else v)%Z /\
  (-9999 <= tz re <= 9999)%Z.
Proof.
  intros H Hh m v Hnd.
  destruct (bkl_parse_entry_effect sb sb' re H) as (e & Hh' & Hshape & _).
  destruct (bkl_parse_entry_numbers sb sb' re H) as (e' & Hh'' & _ & _ & Htz).
  rewrite Hh in Hh', Hh''. inversion Hh'; subst e. inversion Hh''; subst e'.
  fold m in Hshape, Htz.
  pose proof (parse_timestamp_end sb (email_end + 2)) as Hend. fold m in Hend.
  apply timezone_shape_spec in Hshape
    as (_ & Hsg & Hd2 & Hd3 & Hd4 & Hd5).
  assert (Hdig : all_digits [byte_at sb (m + 2); byte_at sb (m + 3);
                             byte_at sb (m + 4); byte_at sb (m + 5)])
    by (repeat constructor; assumption).
  assert (Hlen : m + 5 < length sb).
  { apply byte_at_in_range. intros E. rewrite E in Hd5. discriminate. }
  assert (Hsk : skipn (m + 1) sb =
                byte_at sb (m + 1) :: byte_at sb (m + 2) :: byte_at sb (m + 3)
                :: byte_at sb (m + 4) :: byte_at sb (m + 5)
                :: skipn (m + 6) sb).
  { rewrite (skipn_cons_byte sb (m + 1)) by lia.
    replace (S (m + 1)) with (m + 2) by lia.
    rewrite (skipn_cons_byte sb (m + 2)) by lia.
    replace (S (m + 2)) with (m + 3) by lia.
    rewrite (skipn_cons_byte sb (m + 3)) by lia.
    replace (S (m + 3)) with (m + 4) by lia.
    rewrite (skipn_cons_byte sb (m + 4)) by lia.
    replace (S (m + 4)) with (m + 5) by lia.
    rewrite (skipn_cons_byte sb (m + 5)) by lia.
    replace (S (m + 5)) with (m + 6) by lia. reflexivity. }
  rewrite strtol_skipn, skipn_set_byte_gt, Hsk in Htz by lia.
  rewrite strtol_sign_4_digits in Htz;
    [|exact Hsg | exact Hdig | now rewrite <- byte_at_skipn_0].
  fold v in Htz.
  pose proof (digits_value_4_range _ _ _ _ Hdig) as Hv. fold v in Hv.
  rewrite int_of_long_small in Htz
    by (destruct (Ascii.eqb (byte_at sb (m + 1)) "-"); lia).
  split; [exact Htz|].
  rewrite Htz. destruct (Ascii.eqb (byte_at sb (m + 1)) "-"); lia.
Qed.

Lemma timezone_value_witness :
  bkl_parse_entry example_line = Parsed example_decoded example_entry /\
  parse_header example_line = Some (zero_oid, a_oid, 82, 106) /\
  isdigit (byte_at example_line
             (snd (parse_timestamp example_line (106 + 2)) + 6)) = false /\
  (-9999 <= tz example_entry <= 9999)%Z.
Proof.
  assert (H : bkl_parse_entry example_line
              = Parsed example_decoded example_entry)
    by (vm_compute; reflexivity).
  assert (Hh : parse_header example_line = Some (zero_oid, a_oid, 82, 106))
    by (vm_compute; reflexivity).
  assert (Hd : isdigit (byte_at example_line
                 (snd (parse_timestamp example_line (106 + 2)) + 6)) = false)
    by (vm_compute; reflexivity).
  repeat (split; [assumption|]).
  exact (proj2 (timezone_value example_line example_decoded example_entry
                  zero_oid a_oid 82 106 H Hh Hd)).
Defined.

(** ** Paths that hold a line feed *)

Lemma single_line_with_lf (body : list ascii) :
  no_lf body -> single_line (body ++ [LF]).
Proof.
  intros H. split; [now destruct body|]. now rewrite removelast_last.
Qed.

(** X9.  [bkl_append] does not escape the path: when the path holds a
    line feed, the record it writes is read back as two lines, the second
    one being what followed the line feed in the path. *)
Theorem lf_in_path_splits_record (ci p1 p2 : list ascii)
    (from to : object_id) (fs : filesystem) (path : string) :
  oideq from to = false ->
  no_lf ci -> no_lf p1 -> no_lf p2 ->
  fs path = fopen_of (snd (bkl_write true None
                             (bkl_append ci [] (p1 ++ LF :: p2) from to))) ->
  bkl_parse_file record_line fs path [] =
  Some (0%Z, [line_with_tail ci (TAB :: p1) from to; p2 ++ [LF]]).
Proof.
  intros Hne Hci Hp1 Hp2 Hfs.
  unfold bkl_parse_file. rewrite Hfs. cbn [bkl_write bkl_write_unlocked snd
                                           fopen_of].
  rewrite forward_loop_spec by lia. cbn [Z.eqb].
  rewrite feed_record_line. cbn [app]. do 2 f_equal.
  rewrite bkl_append_line by assumption.
  assert (Hsplit : line_with_tail ci (TAB :: p1 ++ LF :: p2) from to
                   = line_with_tail ci (TAB :: p1) from to ++ (p2 ++ [LF])).
  { unfold line_with_tail. cbn [app].
    repeat (rewrite <- app_assoc; cbn [app]). reflexivity. }
  rewrite Hsplit.
  assert (Hl1 : exists body, line_with_tail ci (TAB :: p1) from to
                             = body ++ [LF] /\ no_lf body).
  { exists (oid_to_hex from ++ [SP] ++ oid_to_hex to ++ [SP]
            ++ ci ++ TAB :: p1). split.
    - unfold line_with_tail. cbn [app].
      repeat (rewrite <- app_assoc; cbn [app]). reflexivity.
    - unfold no_lf in *.
      repeat (apply Forall_app; split);
        try assumption; try apply oid_to_hex_no_lf; repeat constructor.
      assumption. }
  destruct Hl1 as (body & Hbody & Hno). rewrite Hbody.
  rewrite lines_of_app_lf.
  rewrite !lines_of_single by (now apply single_line_with_lf).
  reflexivity.
Qed.

Lemma lf_in_path_splits_record_witness :
  oideq zero_oid a_oid = false /\
  bkl_parse_file record_line
    (fun _ => fopen_of (snd (bkl_write true None
                 (bkl_append example_ci []
                    (bytes "refs" ++ LF :: bytes "forged") zero_oid a_oid))))
    "log"%string []
  = Some (0%Z, [line_with_tail example_ci (TAB :: bytes "refs")
                               zero_oid a_oid;
                bytes "forged" ++ [LF]]).
Proof.
  split; [reflexivity|].
  apply (lf_in_path_splits_record example_ci (bytes "refs") (bytes "forged")
           zero_oid a_oid);
    try reflexivity; repeat constructor.
Defined.

(** ** Writing a log and decoding it *)

Lemma all_digits_no_lf (l : list ascii) : all_digits l -> no_lf l.
Proof.
  intros H. eapply Forall_impl; [|exact H]. intros c Hc.
  apply Ascii.eqb_neq. intros ->. discriminate Hc.
Qed.

Lemma committer_info_no_lf (name mail : list ascii) (stamp zone : Z) :
  no_lf name -> no_lf mail ->
  (0 < stamp)%Z -> (-9999 <= zone <= 9999)%Z ->
  no_lf (committer_info name mail stamp zone).
Proof.
  intros Hn Hm Hs Hz.
  destruct (decimal_spec stamp Hs) as (Hd & _ & _).
  unfold committer_info, ident_who.
  destruct (format_tz_spec zone Hz)
    as (sg & d1 & d2 & d3 & d4 & -> & Hsg & Hdig & _).
  apply all_digits_no_lf in Hd, Hdig.
  unfold no_lf in *.
  apply Forall_app; split.
  - apply Forall_app; split; [exact Hn|].
    apply Forall_app; split; [repeat constructor | exact Hm].
  - apply Forall_app; split; [repeat constructor|].
    apply Forall_app; split; [exact Hd|].
    apply Forall_app; split; [repeat constructor|].
    constructor; [|exact Hdig].
    destruct Hsg; subst; reflexivity.
Qed.

Lemma feed_decode_line (ls : list strbuf)
    (vs : list (object_id * object_id * list ascii * Z * Z * list ascii)) :
  Forall2 decodes_to ls vs ->
  forall seen, feed decode_line ls seen = (0%Z, seen ++ vs).
Proof.
  induction 1 as [|l v ls vs (sb & re & Hd & Hv) _ IH]; intros seen.
  - simpl. now rewrite app_nil_r.
  - cbn [feed]. unfold decode_line at 1. rewrite Hd, Hv. cbn [Z.eqb].
    rewrite IH, <- app_assoc. reflexivity.
Qed.

Lemma Forall2_rev_lists (A B : Type) (R : A -> B -> Prop)
    (l : list A) (l' : list B) :
  Forall2 R l l' -> Forall2 R (rev l) (rev l').
Proof.
  induction 1 as [|x y l l' Hxy _ IH]; [constructor|].
  simpl. apply Forall2_app; [exact IH | repeat constructor; exact Hxy].
Qed.

Lemma transition_lines_decode (ts : list transition) :
  Forall valid_transition ts ->
  Forall2 decodes_to (event_lines (map transition_event ts))
          (map transition_view (filter changed ts)).
Proof.
  induction 1 as [|t ts Ht _ IH]; [constructor|].
  destruct Ht as (Ho & Hn & Hname & Hmail & _ & _ & Hs & Hz & _ & Hp).
  cbn [map filter event_lines flat_map]. unfold changed at 1.
  cbn [transition_event ev_from ev_to].
  destruct (oideq (tr_old t) (tr_new t)) eqn:E; cbn [negb app].
  - exact IH.
  - cbn [map]. constructor; [|exact IH].
    unfold append_event. cbn [ev_committer ev_path ev_from ev_to].
    rewrite bkl_append_line by assumption.
    destruct (line_view_tab (tr_old t) (tr_new t) (tr_name t) (tr_mail t)
                (tr_stamp t) (tr_zone t) Ho Hn Hname Hmail Hs Hz
                (tr_path t) Hp) as (sb & re & Hd & _ & Hv).
    now exists sb, re.
Qed.

(** X10.  Write, read, decode: when transitions with well-formed fields
    are encoded by [bkl_append] and written by [bkl_write], the forward
    reader with [bkl_parse_entry] as its callback meets no corrupt line and
    collects the fields of exactly the transitions whose identifiers
    differ, in the order they were appended; the reverse reader collects
    them in the opposite order. *)
Theorem written_log_decodes (BUFSIZ : nat) (ts : list transition)
    (fs : filesystem) (path : string) :
  2 <= BUFSIZ ->
  Forall valid_transition ts ->
  fs path = fopen_of (write_batches [map transition_event ts]) ->
  bkl_parse_file decode_line fs path []
  = Some (0%Z, map transition_view (filter changed ts)) /\
  bkl_parse_file_reverse BUFSIZ decode_line fs path []
  = Some (Returned 0%Z, rev (map transition_view (filter changed ts))).
Proof.
  intros HB Hts Hfs.
  pose proof (transition_lines_decode ts Hts) as Hdec.
  assert (Hwf : Forall (fun e => no_lf (ev_committer e) /\ no_lf (ev_path e))
                       (map transition_event ts)).
  { apply Forall_map. eapply Forall_impl; [|exact Hts].
    intros t (_ & _ & _ & _ & Hn & Hm & Hs & Hz & Hp & _).
    cbn [transition_event ev_committer ev_path].
    split; [apply committer_info_no_lf; try assumption; lia | exact Hp]. }
  pose proof (event_lines_encoded _ Hwf) as Henc.
  unfold write_batches in Hfs. rewrite write_batches_content in Hfs.
  cbn [content_of app concat fopen_of] in Hfs. rewrite app_nil_r in Hfs.
  unfold bkl_parse_file, bkl_parse_file_reverse. rewrite Hfs. split.
  - rewrite forward_loop_spec by lia. cbn [Z.eqb].
    rewrite lines_of_concat by assumption.
    now rewrite (feed_decode_line _ _ Hdec).
  - rewrite reverse_scan_spec by assumption.
    rewrite reverse_spec_lines by (now apply starts_with_lf_concat).
    rewrite lines_of_concat by assumption.
    now rewrite (feed_decode_line _ _ (Forall2_rev_lists _ _ _ _ _ Hdec)).
Qed.

Lemma written_log_decodes_witness :
  2 <= glibc_BUFSIZ /\
  bkl_parse_file decode_line
    (fun _ => fopen_of (write_batches [map transition_event
       [ {| tr_old := zero_oid; tr_new := a_oid; tr_name := example_name;
            tr_mail := example_mail; tr_stamp := 1700000000; tr_zone := -530;
            tr_path := bytes "refs/heads/main" |};
         {| tr_old := a_oid; tr_new := a_oid; tr_name := example_name;
            tr_mail := example_mail; tr_stamp := 1700000001; tr_zone := 0;
            tr_path := bytes "refs/heads/none" |} ]]))
    "log"%string []
  = Some (0%Z, [(zero_oid, a_oid, bytes "A U Thor <au@example.com>",
                 1700000000%Z, (-530)%Z, bytes "refs/heads/main")]).
Proof.
  assert (HB : 2 <= glibc_BUFSIZ) by (apply Nat.leb_le; reflexivity).
  split; [exact HB|].
  refine (proj1 (written_log_decodes glibc_BUFSIZ _ _ "log"%string HB _
                   eq_refl)).
  repeat constructor; unfold UINTMAX_MAX; cbn; lia.
Defined.

(** ** The appender when system calls fail *)

(** X11.  [bkl_write] returns 0 exactly when the lock could be taken and
    [open] and the write succeeded; the file then holds its former content
    followed by all of [new_log], as in the run without failures, and the
    lock is free again. *)
Theorem bkl_write_sys_success (sys : sys_outcome) (st : log_files)
    (new_log : strbuf) :
  (fst (bkl_write_sys sys st new_log) = 0%Z <->
   lock_taken st = false /\ lock_refused sys = false /\
   open_fails sys = false /\ write_fails_after sys = None) /\
  (fst (bkl_write_sys sys st new_log) = 0%Z ->
   snd (bkl_write_sys sys st new_log)
   = {| log_content := Some (content_of (log_content st) ++ new_log);
        lock_taken := false |} /\
   (fst (bkl_write_sys sys st new_log),
    log_content (snd (bkl_write_sys sys st new_log)))
   = bkl_write true (log_content st) new_log).
Proof.
  unfold bkl_write_sys, bkl_write_unlocked_sys, bkl_write, bkl_write_unlocked.
  destruct st as [file lk], sys as [lr ofl wf].
  cbn [lock_taken lock_refused open_fails write_fails_after log_content].
  destruct lk, lr, ofl, wf as [k|]; cbn [orb fst snd]; (split; [split|]);
    try solve [ intros H; discriminate H
              | intros (H1 & H2 & H3 & H4); discriminate
              | intros _; repeat split
              | intros _; destruct file; repeat split ].
Qed.

(** X12.  Whatever fails, [bkl_write] only appends and leaves the lock as
    it found it: the former content of the file is a prefix of the new
    content, what was added is a prefix of [new_log], an existing file is
    never removed, and the lock file exists afterwards only if it existed
    before; when the lock cannot be taken nothing changes at all. *)
Theorem bkl_write_sys_append_only (sys : sys_outcome) (st : log_files)
    (new_log : strbuf) :
  let st' := snd (bkl_write_sys sys st new_log) in
  lock_taken st' = lock_taken st /\
  (exists added rest,
      content_of (log_content st') = content_of (log_content st) ++ added /\
      new_log = added ++ rest) /\
  (log_content st <> None -> log_content st' <> None) /\
  (lock_taken st || lock_refused sys = true ->
   bkl_write_sys sys st new_log = ((-1)%Z, st)).
Proof.
  unfold bkl_write_sys, bkl_write_unlocked_sys.
  destruct st as [file lk], sys as [lr ofl wf].
  cbn [lock_taken lock_refused open_fails write_fails_after log_content].
  destruct (lk || lr) eqn:Elock.
  - cbn [snd lock_taken log_content].
    split; [reflexivity|].
    split; [exists [], new_log; now rewrite app_nil_r|].
    split; [tauto | reflexivity].
  - apply orb_false_iff in Elock as [Hlk _]. subst lk.
    destruct ofl; [|destruct wf as [k|]];
      cbn [snd lock_taken log_content content_of];
      (split; [reflexivity|]); (split; [|split; [|discriminate]]).
    + exists [], new_log. now rewrite app_nil_r.
    + tauto.
    + exists (firstn k new_log), (skipn k new_log).
      split; [reflexivity | now rewrite firstn_skipn].
    + discriminate.
    + exists new_log, []. split; [reflexivity | now rewrite app_nil_r].
    + discriminate.
Qed.

Lemma bkl_write_sys_success_witness :
  fst (bkl_write_sys no_failure
         {| log_content := Some (bytes "old"); lock_taken := false |}
         (bytes "new")) = 0%Z /\
  snd (bkl_write_sys no_failure
         {| log_content := Some (bytes "old"); lock_taken := false |}
         (bytes "new"))
  = {| log_content := Some (bytes "oldnew"); lock_taken := false |}.
Proof.
  assert (H : fst (bkl_write_sys no_failure
                     {| log_content := Some (bytes "old");
                        lock_taken := false |} (bytes "new")) = 0%Z)
    by reflexivity.
  split; [exact H|].
  exact (proj1 (proj2 (bkl_write_sys_success no_failure
                         {| log_content := Some (bytes "old");
                            lock_taken := false |} (bytes "new")) H)).
Defined.

Lemma bkl_write_sys_append_only_witness :
  lock_taken
    (snd (bkl_write_sys
            {| lock_refused := false; open_fails := false;
               write_fails_after := Some 2 |}
            {| log_content := Some (bytes "old"); lock_taken := false |}
            (bytes "new"))) = false /\
  exists added rest,
    content_of (log_content
      (snd (bkl_write_sys
              {| lock_refused := false; open_fails := false;
                 write_fails_after := Some 2 |}
              {| log_content := Some (bytes "old"); lock_taken := false |}
              (bytes "new")))) = bytes "old" ++ added /\
    bytes "new" = added ++ rest.
Proof.
  pose proof (bkl_write_sys_append_only
                {| lock_refused := false; open_fails := false;
                   write_fails_after := Some 2 |}
                {| log_content := Some (bytes "old"); lock_taken := false |}
                (bytes "new")) as H.
  cbv zeta in H. destruct H as (H1 & H2 & _).
  split; [exact H1 | exact H2].
Defined.

(** ** The tab form and the legacy form *)

(** X13.  On a line that passes the grammar, the path begins behind the
    tab when a tab follows the four timezone digits, and right behind the
    digits otherwise; what is returned as the path is the rest of the line
    without its LF.  The line [bkl_append] writes for given fields and the
    legacy line for the same fields, whose path must not begin with a tab,
    both decode to these identifiers, this identity, this timestamp and
    this path, the one with the path at [message + 7] and the other at
    [message + 6]; the timezone read from the legacy line is the given one
    when the path does not begin with a decimal digit. *)
Theorem tab_and_legacy_tail :
  (forall sb sb' re old new p email_end,
      bkl_parse_entry sb = Parsed sb' re ->
      parse_header sb = Some (old, new, p, email_end) ->
      let message := snd (parse_timestamp sb (email_end + 2)) in
      timezone_shape sb message = true /\
      (byte_at sb (message + 6) = TAB -> path re = message + 7) /\
      (byte_at sb (message + 6) <> TAB -> path re = message + 6) /\
      cstring_at sb' (path re) = cstr (slice sb (path re) (length sb - 1)))
  /\
  (forall old new name mail stamp zone pth,
      valid_oid old -> valid_oid new -> plain name -> plain mail ->
      (0 < stamp <= UINTMAX_MAX)%Z -> (-9999 <= zone <= 9999)%Z ->
      no_nul pth -> byte_at pth 0 <> TAB ->
      let ci := committer_info name mail stamp zone in
      exists sb1 re1 sb2 re2,
        bkl_parse_entry (line_with_tail ci (TAB :: pth) old new)
        = Parsed sb1 re1 /\
        bkl_parse_entry (legacy_line ci pth old new) = Parsed sb2 re2 /\
        path re1 = message_of name mail stamp + 7 /\
        path re2 = message_of name mail stamp + 6 /\
        entry_view sb1 re1 =
        (old, new, ident_who name mail ++ [">"%char], stamp, zone, pth) /\
        entry_view sb2 re2 =
        (old, new, ident_who name mail ++ [">"%char], stamp, tz re2, pth) /\
        (isdigit (byte_at pth 0) = false -> tz re2 = zone)).
Proof.
  split.
  - intros sb sb' re old new p e Hdec Hh message.
    destruct (bkl_parse_entry_effect sb sb' re Hdec)
      as (e' & Hh' & Hshape & Hpath & _ & _ & _ & _ & _ & _ & _ & _ & _ & _
          & _ & _ & _ & Hstr & _).
    rewrite Hh in Hh'. inversion Hh'; subst e'. fold message in Hshape, Hpath.
    repeat split.
    + exact Hshape.
    + intros Ht. rewrite Hpath, Ht. reflexivity.
    + intros Ht. rewrite Hpath.
      now rewrite (proj2 (Ascii.eqb_neq _ _) Ht).
    + exact Hstr.
  - intros old new name mail stamp zone pth Hold Hnew Hname Hmail Hts Htz
           Hp Htab ci.
    destruct (line_view_tab old new name mail stamp zone
                Hold Hnew Hname Hmail Hts Htz pth Hp)
      as (sb1 & re1 & Hd1 & Hp1 & Hv1).
    destruct (line_view_legacy old new name mail stamp zone
                Hold Hnew Hname Hmail Hts Htz pth Hp Htab)
      as (sb2 & re2 & Hd2 & Hp2 & Hv2 & Hz2).
    exists sb1, re1, sb2, re2. repeat split; assumption.
Qed.

Lemma tab_and_legacy_tail_witness :
  (bkl_parse_entry example_line = Parsed example_decoded example_entry /\
   path example_entry = 118 + 7) /\
  (byte_at (bytes "refs/heads/main") 0 <> TAB /\
   exists sb1 re1 sb2 re2,
     bkl_parse_entry
       (line_with_tail example_ci (TAB :: bytes "refs/heads/main")
                       zero_oid a_oid) = Parsed sb1 re1 /\
     bkl_parse_entry
       (legacy_line example_ci (bytes "refs/heads/main") zero_oid a_oid)
     = Parsed sb2 re2 /\
     path re1 = message_of example_name example_mail 1700000000 + 7 /\
     path re2 = message_of example_name example_mail 1700000000 + 6 /\
     entry_view sb1 re1 =
     (zero_oid, a_oid, ident_who example_name example_mail ++ [">"%char],
      1700000000%Z, 0%Z, bytes "refs/heads/main") /\
     entry_view sb2 re2 =
     (zero_oid, a_oid, ident_who example_name example_mail ++ [">"%char],
      1700000000%Z, tz re2, bytes "refs/heads/main") /\
     (isdigit (byte_at (bytes "refs/heads/main") 0) = false -> tz re2 = 0%Z)).
Proof.
  assert (Hdec : bkl_parse_entry example_line
                 = Parsed example_decoded example_entry)
    by (vm_compute; reflexivity).
  assert (Hh : parse_header example_line = Some (zero_oid, a_oid, 82, 106))
    by (vm_compute; reflexivity).
  assert (Ht : byte_at (bytes "refs/heads/main") 0 <> TAB)
    by (vm_compute; discriminate).
  split; [split; [exact Hdec|] | split; [exact Ht|]].
  - refine (proj1 (proj2 (proj1 tab_and_legacy_tail example_line
                            example_decoded example_entry zero_oid a_oid
                            82 106 Hdec Hh)) _).
    vm_compute. reflexivity.
  - apply (proj2 tab_and_legacy_tail zero_oid a_oid example_name example_mail
             1700000000%Z 0%Z (bytes "refs/heads/main"));
      try reflexivity; try (unfold UINTMAX_MAX; lia); try exact Ht;
      repeat constructor.
Defined.
